(** * QGeoMarine: seismic trace processing and navigation geometry

    A shallow embedding of the numerical core of QGeoMarine
    (signals/mute.py, Gains.py, signals/filters.py, signals/deconvolution.py,
    processing/trace_qc.py, navigation/navigation.py) and the properties
    its design document states about it.

    Conventions of the embedding.
    - Python [float] and NumPy [float64] scalars are IEEE-754 binary64
      numbers: Rocq's primitive floats, so that guards such as
      [cable_length < depth] and truncations such as
      [int(mute_time / sample_interval)] are evaluated exactly as the
      interpreter evaluates them.
    - NumPy arrays live in a store of arrays addressed by references;
      [np.copy], [np.zeros_like] and array-valued expressions allocate,
      indexed assignment updates the array a reference points to. The
      samples of a stored array are binary64 numbers; the narrowing of a
      [float32] matrix on assignment is not modelled, and no statement
      below depends on the value of a computed sample.
    - Python exceptions are values of [exn]; a computation returns
      [Ok v] or [Raise e].
    - The algebraic statements about deconvolution, wavelet
      normalisation and the F-K kernel are identities of exact
      arithmetic; for those the samples are real numbers ([R]).
    - SciPy, PyWavelets, pandas and matplotlib routines whose numerical
      result is irrelevant to a statement are parameters of a Section. *)

From Stdlib Require Import ZArith List String Bool Lia Sorted.
From Stdlib Require Import Floats.
From Stdlib Require Import Reals Lra ClassicalEpsilon.
From stdpp Require Import base list.

Set Default Proof Using "Type".

(* ================================================================== *)
(** * Part I. The model                                                 *)
(* ================================================================== *)

(** ** Python values, exceptions and results *)

Module Py.

Inductive exn : Type :=
| ValueError (msg : string)
| IndexError (msg : string)
| TypeError (msg : string)
| ZeroDivisionError
| OverflowError
| LinAlgError (msg : string)
| Exception (msg : string).

Inductive Result (A : Type) : Type :=
| Ok (a : A)
| Raise (e : exn).
Arguments Ok {A} a.
Arguments Raise {A} e.

Definition bind {A B} (r : Result A) (k : A -> Result B) : Result B :=
  match r with
  | Ok a => k a
  | Raise e => Raise e
  end.

(** [for x in xs: ys.append(f x)], stopping at the first exception. *)
Fixpoint mapM {A B} (f : A -> Result B) (xs : list A) : Result (list B) :=
  match xs with
  | [] => Ok []
  | x :: xs' =>
      bind (f x) (fun y => bind (mapM f xs') (fun ys => Ok (y :: ys)))
  end.

(** [for x in xs: acc = step acc x], stopping at the first exception. *)
Fixpoint foldM {A S} (step : S -> A -> Result S) (xs : list A) (acc : S)
  : Result S :=
  match xs with
  | [] => Ok acc
  | x :: xs' => bind (step acc x) (foldM step xs')
  end.

(** [except ValueError as e: raise ValueError(prefix + str(e))]: a
    [ValueError] is raised again with a prefixed message, any other
    exception and any result pass through. *)
Definition reraise {A} (prefix : string) (r : Result A) : Result A :=
  match r with
  | Raise (ValueError e) => Raise (ValueError (prefix ++ e))
  | _ => r
  end.

(** [range(lo, hi)] as the list of its integers. *)
Definition range (lo hi : Z) : list Z :=
  map (fun k => (lo + Z.of_nat k)%Z) (seq 0 (Z.to_nat (hi - lo))).

(** The integer a float denotes when it is finite: [int(x)] truncates
    towards zero, and raises on infinities and NaN. *)
Definition int_of_float (x : float) : Result Z :=
  match Prim2SF x with
  | S754_zero _ => Ok 0%Z
  | S754_infinity _ => Raise OverflowError
  | S754_nan => Raise (ValueError "cannot convert float NaN to integer")
  | S754_finite s m e =>
      let a := Z.shiftl (Zpos m) e in
      Ok (if s then (- a)%Z else a)
  end.

(** [float(z)] for a machine-size integer. *)
Definition float_of_Z (z : Z) : float :=
  match z with
  | Z0 => 0%float
  | Zpos _ => of_uint63 (Uint63.of_Z z)
  | Zneg p => (- of_uint63 (Uint63.of_Z (Zpos p)))%float
  end.

(** [a / b] on Python floats. *)
Definition truediv (a b : float) : Result float :=
  if (b =? 0)%float then Raise ZeroDivisionError else Ok (a / b)%float.

(** [x ** 2] on NumPy [float64] values, the cells of a DataFrame row
    and the samples of an array alike: the square rounded to nearest.
    An overflow gives an infinity (with a warning), never an
    exception. *)
Definition pow2 (x : float) : float := (x * x)%float.

(** [x ** 2] on Python [float] operands: [float.__pow__] raises
    [OverflowError] when the power of a finite number is infinite; an
    infinite or NaN operand gives an infinity or NaN without error. *)
Definition float_pow2 (x : float) : Result float :=
  let y := (x * x)%float in
  if is_finite x && is_infinity y then Raise OverflowError else Ok y.

(** Normalisation of the stop index of a slice [a[:stop]] against a
    length [n] (Python's [slice.indices]). *)
Definition slice_stop (stop : Z) (n : nat) : nat :=
  if (stop <? 0)%Z then Z.to_nat (Z.of_nat n + stop)
  else Nat.min (Z.to_nat stop) n.

(** Normalisation of the start index of a slice [a[start:]]. *)
Definition slice_start (start : Z) (n : nat) : nat :=
  if (start <? 0)%Z then Z.to_nat (Z.of_nat n + start)
  else Nat.min (Z.to_nat start) n.

(** Normalisation of a subscript [a[i]]: negative subscripts count from
    the end, anything outside [-n, n) raises [IndexError]. *)
Definition index (i : Z) (n : nat) : Result nat :=
  if ((0 <=? i) && (i <? Z.of_nat n))%Z then Ok (Z.to_nat i)
  else if ((- Z.of_nat n <=? i) && (i <? 0))%Z
       then Ok (Z.to_nat (Z.of_nat n + i))
       else Raise (IndexError "index out of bounds").

End Py.

Export Py.

Declare Scope py_scope.
Delimit Scope py_scope with py.
Notation "'let*' x ':=' c 'in' k" := (Py.bind c (fun x => k))
  (at level 10, x pattern, c at level 100, k at level 200) : py_scope.
Open Scope py_scope.

(* ------------------------------------------------------------------ *)
(** ** NumPy: arrays in a store *)

Module Np.

(** A two-dimensional float array, as the list of its rows. *)
Abbreviation ndarray := (list (list float)).
(** A reference to an array, and the store references point into. *)
Abbreviation ref := nat (only parsing).
Abbreviation store := (list ndarray).

(** A computation on the store: it returns or raises, and leaves a
    store behind. *)
Definition M (A : Type) : Type := store -> Result A * store.

Definition ret {A} (a : A) : M A := fun st => (Ok a, st).
Definition raise {A} (e : exn) : M A := fun st => (Raise e, st).
Definition lift {A} (r : Result A) : M A := fun st => (r, st).
Definition bindM {A B} (c : M A) (k : A -> M B) : M B :=
  fun st =>
    match c st with
    | (Ok a, st') => k a st'
    | (Raise e, st') => (Raise e, st')
    end.

(** A new array: the next free reference. *)
Definition alloc (a : ndarray) : M ref :=
  fun st => (Ok (length st), st ++ [a]).

(** The array a reference points to. *)
Definition load (r : ref) : M ndarray :=
  fun st =>
    match st !! r with
    | Some a => (Ok a, st)
    | None => (Raise (Exception "no such array"), st)
    end.

(** In-place update of the array [r] points to; when the update raises
    the array keeps its contents. *)
Definition update (r : ref) (f : ndarray -> Result ndarray) : M unit :=
  fun st =>
    match st !! r with
    | Some a =>
        match f a with
        | Ok a' => (Ok tt, <[r := a']> st)
        | Raise e => (Raise e, st)
        end
    | None => (Raise (Exception "no such array"), st)
    end.

End Np.

Notation "'let!' x ':=' c 'in' k" := (Np.bindM c (fun x => k))
  (at level 10, x pattern, c at level 100, k at level 200) : py_scope.

Module NpOps.
Import Np.

(** [for x in xs: body x] *)
Fixpoint forM_ {A} (xs : list A) (body : A -> M unit) : M unit :=
  match xs with
  | [] => ret tt
  | x :: xs' => let! _ := body x in forM_ xs' body
  end.

(** [np.copy(a)], [a.copy()] *)
Definition copy (r : ref) : M ref :=
  let! a := load r in alloc a.

(** [np.zeros_like(a)] *)
Definition zeros_like (r : ref) : M ref :=
  let! a := load r in alloc (map (map (fun _ => 0%float)) a).

(** [a.shape[1]] *)
Definition ncols {T} (a : list (list T)) : nat :=
  match a with
  | [] => 0
  | row :: _ => length row
  end.

(** [a[:, :stop] = v] *)
Definition setitem_cols_before (stop : Z) (v : float) (a : ndarray)
  : ndarray :=
  map (fun row =>
         let k := slice_stop stop (length row) in
         replicate k v ++ drop k row) a.

(** [a[:, start:] = v] *)
Definition setitem_cols_from (start : Z) (v : float) (a : ndarray)
  : ndarray :=
  map (fun row =>
         let k := slice_start start (length row) in
         take k row ++ replicate (length row - k) v) a.

(** [a[i, :] = v] for a scalar [v] *)
Definition setitem_row (i : Z) (v : float) (a : ndarray) : Result ndarray :=
  let* k := index i (length a) in
  Ok (alter (map (fun _ => v)) k a).

(** [a[i] = values] for a one-dimensional [values] of the row's length *)
Definition setitem_row_values (i : Z) (values : list float) (a : ndarray)
  : Result ndarray :=
  let* k := index i (length a) in
  match a !! k with
  | Some row =>
      if (length values =? length row)%nat then Ok (<[k := values]> a)
      else Raise (ValueError "could not broadcast input array")
  | None => Raise (IndexError "index out of bounds")
  end.

(** [x op y] on one-dimensional arrays of equal length *)
Definition elementwise (op : float -> float -> float) (x y : list float)
  : Result (list float) :=
  if (length x =? length y)%nat then Ok (zip_with op x y)
  else Raise (ValueError "operands could not be broadcast together").

End NpOps.

(** *** What an operation does to the store *)

Module Effect.
Import Np.

(** The weakest precondition of a computation: the store [st] it starts
    from is one on which it ends in a result and a store that satisfy
    [post]. *)
Definition wp {A} (c : M A) (post : Result A -> store -> Prop)
  (st : store) : Prop :=
  let '(r, st') := c st in post r st'.

(** [st'] is [st] with new arrays behind it: every array of [st] is
    where it was, with the contents it had. *)
Definition extends (st st' : store) : Prop :=
  exists tail, st' = st ++ tail.

(** The arrays the caller holds are untouched by [c]: whatever store
    the caller starts from, and whether [c] returns or raises, every
    reference of that store points afterwards to the array it pointed
    to before. *)
Definition leaves_inputs_unchanged {A} (c : M A) : Prop :=
  forall st : store,
    wp c (fun _ st' =>
            forall (p : ref) (a : ndarray),
              st !! p = Some a -> st' !! p = Some a) st.

(** [c] returns a freshly allocated array: when it returns [out], that
    reference pointed to nothing in the store the caller started from,
    and points to an array in the store [c] leaves. *)
Definition returns_fresh (c : M ref) : Prop :=
  forall st : store,
    wp c (fun r st' =>
            forall out : ref, r = Ok out ->
              st !! out = None /\ is_Some (st' !! out)) st.

(** The same for an operation that may return [None] for "no array":
    what it returns is an array, and a fresh one. *)
Definition returns_fresh_array (c : M (option ref)) : Prop :=
  forall st : store,
    wp c (fun r st' =>
            forall o : option ref, r = Ok o ->
              exists out, o = Some out /\
                st !! out = None /\ is_Some (st' !! out)) st.

(** Both: the property the design asks of a processing operation. *)
Definition functional_operation (c : M ref) : Prop :=
  leaves_inputs_unchanged c /\ returns_fresh c.

(** Row by row, the first [k] samples of [muted] are zero and the others
    are the samples of [a]. *)
Definition zeroed_before (k : nat) (a muted : ndarray) : Prop :=
  length muted = length a /\
  forall (t : nat) (trace : list float),
    a !! t = Some trace ->
    exists mtrace,
      muted !! t = Some mtrace /\
      length mtrace = length trace /\
      forall j : nat,
        (j < k -> j < length trace -> mtrace !! j = Some 0%float) /\
        (k <= j -> mtrace !! j = trace !! j).

(** Row by row, the samples of [muted] from index [k] on are zero and
    the samples before it are the samples of [a]. *)
Definition zeroed_from (k : nat) (a muted : ndarray) : Prop :=
  length muted = length a /\
  forall (t : nat) (trace : list float),
    a !! t = Some trace ->
    exists mtrace,
      muted !! t = Some mtrace /\
      length mtrace = length trace /\
      forall j : nat,
        (j < k -> mtrace !! j = trace !! j) /\
        (k <= j -> j < length trace -> mtrace !! j = Some 0%float).

(** A matrix of traces of [n] samples each. *)
Definition rectangular (n : nat) (a : ndarray) : Prop :=
  Forall (fun trace => length trace = n) a.

(** Two arrays of one shape: as many rows, and row by row as many
    samples. *)
Definition same_shape (a b : ndarray) : Prop :=
  map length a = map length b.

(** [c] returns an array of the shape of the array [data] points to. *)
Definition keeps_shape (data : ref) (c : M ref) : Prop :=
  forall st : store,
    wp c (fun r st' =>
            forall out : ref, r = Ok out ->
              exists a b, st !! data = Some a /\ st' !! out = Some b
                          /\ same_shape a b) st.

(** The state of an operation that works on an output array [out] for
    the input array [a]: the store is the caller's [st0] with new arrays
    behind it, [out] is one of the new arrays, and it has the shape of
    [a]. *)
Definition owns (st0 : store) (a : ndarray) (out : ref) (st : store)
  : Prop :=
  extends st0 st /\ length st0 <= out < length st /\
  exists b, st !! out = Some b /\ same_shape a b.

(** An output array [cur] of the shape of [a] whose rows before [i] hold
    what [f] returns for the rows of [a]. *)
Definition rows_filled (f : list float -> Result (list float))
  (a : ndarray) (i : nat) (cur : ndarray) : Prop :=
  same_shape a cur /\
  forall (t : nat) (row : list float),
    t < i -> a !! t = Some row -> exists r, cur !! t = Some r /\ f row = Ok r.

(** What is shown of each operation on [data]: it ends in a store that
    extends the caller's, and a reference it returns is an output array
    it owns for the array [data] pointed to. *)
Definition well_behaved (st0 : store) (data : ref) (r : Result ref)
  (st : store) : Prop :=
  extends st0 st /\
  forall out, r = Ok out -> exists a, st0 !! data = Some a /\ owns st0 a out st.

End Effect.

(* ------------------------------------------------------------------ *)
(** ** Sums and convolutions, over any scalar type *)

Module Arr.

Section Numeric.
Context {T : Type}.
Variable zero : T.
Variables add mul : T -> T -> T.

Definition sum (l : list T) : T := foldr add zero l.

Definition sum2 (m : list (list T)) : T := sum (map sum m).

(** [a[i]] when [i] is a valid non-negative index, zero outside. *)
Definition nth0 (a : list T) (i : Z) : T :=
  if (i <? 0)%Z then zero else nth (Z.to_nat i) a zero.

Definition dot (a b : list T) : T := sum (zip_with mul a b).

(** [np.correlate(a, a, mode='full')[len(a)-1:]]: the lags 0, 1, ... of
    the autocorrelation. *)
Definition autocorrelation (a : list T) : list T :=
  map (fun k => dot (drop k a) a) (seq 0 (length a)).

(** Entry [k] of the full discrete convolution of [a] and [v]. *)
Definition convolve_at (a v : list T) (k : Z) : T :=
  sum (map (fun j => mul (nth0 a j) (nth0 v (k - j)))
         (range 0 (Z.of_nat (length a)))).

(** [np.convolve(a, v, mode='same')]: the middle [max(len(a), len(v))]
    entries of the full convolution. *)
Definition convolve_same (a v : list T) : Result (list T) :=
  match a, v with
  | [], _ => Raise (ValueError "a cannot be empty")
  | _, [] => Raise (ValueError "v cannot be empty")
  | _, _ =>
      let n := Z.of_nat (Nat.min (length a) (length v)) in
      let out_len := Z.of_nat (Nat.max (length a) (length v)) in
      Ok (map (fun k => convolve_at a v (k + (n - 1) / 2)) (range 0 out_len))
  end.

(** [m[i][j]] *)
Definition nth2 (m : list (list T)) (i j : Z) : T :=
  nth (Z.to_nat j) (nth (Z.to_nat i) m []) zero.

(** [signal.convolve2d(in1, in2, mode='same', boundary='wrap')]: entry
    [(m, n)] sums [in2[j][l] * in1[m + (K0-1)/2 - j][n + (K1-1)/2 - l]]
    over the kernel, the indices into [in1] taken modulo its shape. *)
Definition convolve2d_same_wrap (in1 in2 : list (list T))
  : list (list T) :=
  let nr := Z.of_nat (length in1) in
  let nc := Z.of_nat (NpOps.ncols in1) in
  let off0 := ((Z.of_nat (length in2) - 1) / 2)%Z in
  let off1 := ((Z.of_nat (NpOps.ncols in2) - 1) / 2)%Z in
  imap (fun m row =>
    imap (fun n _ =>
      sum (imap (fun j krow =>
        sum (imap (fun l w =>
          mul w (nth2 in1 ((Z.of_nat m + off0 - Z.of_nat j) mod nr)
                          ((Z.of_nat n + off1 - Z.of_nat l) mod nc)))
          krow)) in2)) row) in1.

(** The F-K smoothing window: a [filter_order] by [filter_order] Gaussian
    on the grid [arange(-filter_order // 2, filter_order // 2)], divided
    by its sum. [gauss x y filter_order] is the unnormalised entry
    [exp(-(x**2 + y**2) / (2 * (filter_order / 6)**2))]. *)
Variable gauss : Z -> Z -> Z -> T.
Variable div : T -> T -> T.

Definition fk_window (filter_order : Z) : list (list T) :=
  let x := range ((- filter_order) / 2) (filter_order / 2) in
  let y := range ((- filter_order) / 2) (filter_order / 2) in
  let window := map (fun yv => map (fun xv => gauss xv yv filter_order) x) y in
  let total := sum2 window in
  map (map (fun w => div w total)) window.

Definition fk_filter_values (signal_data : list (list T))
  (filter_order : Z) : list (list T) :=
  let window := fk_window filter_order in
  convolve2d_same_wrap signal_data window.

End Numeric.

End Arr.

(* ------------------------------------------------------------------ *)
(** ** navigation/navigation.py *)

Module NavigationFromTowFish.

(** The four coordinate words of a SEG-Y trace header, as segyio
    returns them (integers). *)
Record TraceHeader : Type := {
  SourceX : Z;
  SourceY : Z;
  GroupX : Z;
  GroupY : Z
}.

(** [[x for x in xs if x != 0]] *)
Definition drop_zeros (xs : list Z) : list Z :=
  List.filter (fun x => negb (x =? 0)%Z) xs.

(** [load_Nav_data_from_segyfile], from the headers of the opened
    file on: the four columns are collected, each column is filtered
    on its own, and the x and y columns are zipped. The function
    returns [self.source_coords]. *)
Definition load_Nav_data_from_segyfile (headers : list TraceHeader)
  : list (Z * Z) :=
  let source_x := map SourceX headers in
  let source_y := map SourceY headers in
  let source_x := drop_zeros source_x in
  let source_y := drop_zeros source_y in
  combine source_x source_y.

(** The coordinate pair one header holds. *)
Definition header_pair (h : TraceHeader) : Z * Z := (SourceX h, SourceY h).

(** Two traces; the first has no source x (0) but a source y. *)
Definition headers_x_missing : list TraceHeader :=
  [ {| SourceX := 0; SourceY := 5; GroupX := 0; GroupY := 0 |};
    {| SourceX := 1; SourceY := 6; GroupX := 0; GroupY := 0 |} ].

(** Three traces; the second has no position fix (both words 0). *)
Definition headers_fix_missing : list TraceHeader :=
  [ {| SourceX := 3; SourceY := 5; GroupX := 0; GroupY := 0 |};
    {| SourceX := 0; SourceY := 0; GroupX := 0; GroupY := 0 |};
    {| SourceX := 4; SourceY := 6; GroupX := 0; GroupY := 0 |} ].

End NavigationFromTowFish.

Module NavigationFromShip.

(** One row of the navigation table. [Heading] is read only when the
    table has a [Heading] column. *)
Record NavRow : Type := {
  X_ship : float;
  Y_ship : float;
  Heading : float;
  cable_length : float;
  depth : float;
  sheave_offset : float
}.

(** The navigation DataFrame: its rows, whether it has a [Heading]
    column, and the two columns [ship_to_sbp_nav] adds. *)
Record DataFrame : Type := {
  rows : list NavRow;
  has_Heading : bool;
  X_sbp : option (list float);
  Y_sbp : option (list float)
}.

(** [calculate_layback] on the operands [calculate_total_offset] passes
    to it, the [float64] cells of a row of the navigation table. *)
Definition calculate_layback (cable_length depth : float) : Result float :=
  if (cable_length <? depth)%float then
    Raise (ValueError
      "Cable length must be greater than depth to apply the Pythagorean theorem.")
  else
    let layback := PrimFloat.sqrt (pow2 cable_length - pow2 depth) in
    Ok layback.

(** [calculate_layback] on Python [float] operands, the type its
    docstring gives the two parameters: the guard and the formula are
    the same, and [**] raises [OverflowError] where the [float64]
    square is infinite. [cable_length**2] is evaluated first. *)
Definition calculate_layback_float (cable_length depth : float)
  : Result float :=
  if (cable_length <? depth)%float then
    Raise (ValueError
      "Cable length must be greater than depth to apply the Pythagorean theorem.")
  else
    let* cable_length_2 := float_pow2 cable_length in
    let* depth_2 := float_pow2 depth in
    let layback := PrimFloat.sqrt (cable_length_2 - depth_2) in
    Ok layback.

(** Whether [x ** 2] overflows on a Python [float]. *)
Definition square_overflows (x : float) : bool :=
  is_finite x && is_infinity (x * x)%float.

Definition calculate_total_offset (row : NavRow) : Result float :=
  let* layback := calculate_layback (cable_length row) (depth row) in
  let total_offset := (sheave_offset row + layback)%float in
  Ok total_offset.

Section Trigonometry.
(** [np.cos], [np.sin] and [np.arctan2]. *)
Variables (np_cos np_sin : float -> float).
Variable np_arctan2 : float -> float -> float.
(** Writing the coordinates into the SEG-Y headers (file I/O). *)
Variable assign_sbp_coords_to_segy : list (float * float) -> Result unit.

Definition calculate_heading (gps_coords1 gps_coords2 : float * float)
  : float :=
  let '(X1, Y1) := gps_coords1 in
  let '(X2, Y2) := gps_coords2 in
  np_arctan2 (Y2 - Y1)%float (X2 - X1)%float.

Definition calculate_sbp_coords (ship_gps_coords : float * float)
  (total_offset ship_heading : float) : float * float :=
  let '(Xs, Ys) := ship_gps_coords in
  ((Xs + total_offset * np_cos ship_heading)%float,
   (Ys + total_offset * np_sin ship_heading)%float).

(** The body of the loop [for i in range(len(ship_gps_df) - 1)]. *)
Definition sbp_coord_at (df : DataFrame) (i : Z) : Result (float * float) :=
  match rows df !! Z.to_nat i, rows df !! Z.to_nat (i + 1) with
  | Some r1, Some r2 =>
      let gps_coords1 := (X_ship r1, Y_ship r1) in
      let gps_coords2 := (X_ship r2, Y_ship r2) in
      let* total_offset := calculate_total_offset r1 in
      let heading :=
        if has_Heading df then Heading r1
        else calculate_heading gps_coords1 gps_coords2 in
      Ok (calculate_sbp_coords gps_coords1 total_offset heading)
  | _, _ => Raise (Exception "KeyError")
  end.

(** The list [sbp_coords] when the loop is left. *)
Definition sbp_coords_loop (df : DataFrame) : Result (list (float * float)) :=
  mapM (sbp_coord_at df) (range 0 (Z.of_nat (length (rows df)) - 1)).

(** [ship_to_sbp_nav]. After the loop,
    [ship_gps_df['X_sbp'], ship_gps_df['Y_sbp'] = zip( *sbp_coords)]
    unpacks the transposed list (which has no element when [sbp_coords]
    is empty) and assigns each half as a column; pandas refuses a
    column whose length differs from the number of rows. *)
Definition ship_to_sbp_nav (df : DataFrame)
  : Result (DataFrame * list (float * float)) :=
  let* sbp_coords := sbp_coords_loop df in
  match sbp_coords with
  | [] => Raise (ValueError "not enough values to unpack (expected 2, got 0)")
  | _ :: _ =>
      let xs := map fst sbp_coords in
      let ys := map snd sbp_coords in
      if negb (length xs =? length (rows df))%nat then
        Raise (ValueError "Length of values does not match length of index")
      else
        let df' := {| rows := rows df; has_Heading := has_Heading df;
                      X_sbp := Some xs; Y_sbp := Some ys |} in
        let* _ := assign_sbp_coords_to_segy sbp_coords in
        Ok (df', sbp_coords)
  end.

End Trigonometry.

(** A track of two records, ten metres apart, no [Heading] column. *)
Definition track2 : DataFrame :=
  {| rows :=
       [ {| X_ship := 0; Y_ship := 0; Heading := 0;
            cable_length := 100; depth := 60; sheave_offset := 5 |};
         {| X_ship := 10; Y_ship := 0; Heading := 0;
            cable_length := 100; depth := 60; sheave_offset := 5 |} ];
     has_Heading := false; X_sbp := None; Y_sbp := None |}.

End NavigationFromShip.


(* ------------------------------------------------------------------ *)
(** ** app.py: the towfish track handed to the map *)

Module App.
Import NavigationFromTowFish.

(** [[(lat, lon) for lat, lon in lat_lon_coords if lat != 0 and lon != 0]] *)
Definition filtered_coords (lat_lon_coords : list (Z * Z)) : list (Z * Z) :=
  List.filter (fun '(lat, lon) => negb (lat =? 0)%Z && negb (lon =? 0)%Z)
    lat_lon_coords.

(** [load_towfish_navigation] in a project whose EPSG code is 4326 (no
    transformation), from the headers of the file to the coordinates
    passed to [add_seismic_line]. *)
Definition load_towfish_navigation (headers : list TraceHeader)
  : list (Z * Z) :=
  let sbp_coords := load_Nav_data_from_segyfile headers in
  let lat_lon_coords := sbp_coords in
  filtered_coords lat_lon_coords.

End App.
(* ------------------------------------------------------------------ *)
(** ** signals/filters.py *)

Module IIR_Filters.

Inductive btype : Type := Lowpass | Highpass | Bandpass.

Section SciPy.
(** The array of second-order sections a design routine returns. *)
Variable sos : Type.
(** [signal.butter(N, Wn, btype, fs=fs, output='sos')]. *)
Variable signal_butter : Z -> list float -> btype -> float -> Result sos.
(** [signal.sosfilt(sos, x)]. *)
Variable signal_sosfilt : sos -> list float -> Result (list float).

Definition highpass_filter (signal_data : list float) (sample_rate : float)
  (filter_order : Z) (freq : float) : Result (list float) :=
  let nyquist := (sample_rate / 2)%float in
  if (nyquist <=? freq)%float then
    Raise (ValueError
      "Highpass filter frequency must be less than Nyquist frequency.")
  else
    reraise "Error applying highpass filter: "
      (let* sos := signal_butter filter_order [freq] Highpass sample_rate in
       let* filtered_signal_data := signal_sosfilt sos signal_data in
       Ok filtered_signal_data).

Definition lowpass_filter (signal_data : list float) (sample_rate : float)
  (filter_order : Z) (freq : float) : Result (list float) :=
  let nyquist := (sample_rate / 2)%float in
  if (nyquist <=? freq)%float then
    Raise (ValueError
      "Lowpass filter frequency must be less than Nyquist frequency.")
  else
    reraise "Error applying lowpass filter: "
      (let* sos := signal_butter filter_order [freq] Lowpass sample_rate in
       let* filtered_signal_data := signal_sosfilt sos signal_data in
       Ok filtered_signal_data).

Definition bandpass_filter (signal_data : list float) (sample_rate : float)
  (filter_order : Z) (freqmin freqmax : float) : Result (list float) :=
  let nyquist := (sample_rate / 2)%float in
  if (nyquist <=? freqmin)%float || (nyquist <=? freqmax)%float then
    Raise (ValueError
      "Bandpass filter frequencies must be less than Nyquist frequency.")
  else
    reraise "Error applying bandpass filter: "
      (let* sos :=
         signal_butter filter_order [freqmin; freqmax] Bandpass sample_rate in
       let* filtered_signal_data := signal_sosfilt sos signal_data in
       Ok filtered_signal_data).

(** What is left of a Butterworth filter function once its Nyquist guard
    has let the cutoffs through: the design routine called on the order
    and the cutoffs as the caller gave them, then the filter routine. *)
Definition design_and_filter (prefix : string) (data : list float)
  (fs : float) (order : Z) (Wn : list float) (bt : btype)
  : Result (list float) :=
  reraise prefix
    (let* s := signal_butter order Wn bt fs in signal_sosfilt s data).

End SciPy.

(** A design routine and a filter routine that accept every order, as
    [signal.butter] accepts the orders 0 and 101: the sections record the
    parameters they were designed from. *)
Definition butter_any_order (N : Z) (Wn : list float) (bt : btype)
  (fs : float) : Result (Z * list float) := Ok (N, Wn).
Definition sosfilt_any (s : Z * list float) (x : list float)
  : Result (list float) := Ok x.

Section Chebyshev.
(** The array of second-order sections, and the pair [(b, a)] of
    transfer-function coefficients a design routine returns when no
    [output] is asked for. *)
Variables (sos ba : Type).
(** [signal.cheby2(N, rs, Wn, btype, fs=fs, output='sos')] *)
Variable signal_cheby2_sos :
  Z -> float -> list float -> btype -> float -> Result sos.
(** [signal.cheby2(N, rs, Wn, btype, fs=fs)] *)
Variable signal_cheby2_ba :
  Z -> float -> list float -> btype -> float -> Result ba.
(** [signal.sosfilt(sos, x)] *)
Variable signal_sosfilt : sos -> list float -> Result (list float).

Definition cheby2_highpass_filter (signal_data : list float)
  (sample_rate : float) (filter_order : Z) (freq ripple : float)
  : Result (list float) :=
  reraise "Error applying Chebyshev Type II highpass filter: "
    (let* sos :=
       signal_cheby2_sos filter_order ripple [freq] Highpass sample_rate in
     let* filtered_signal_data := signal_sosfilt sos signal_data in
     Ok filtered_signal_data).

(** The design is asked for without [output='sos'], and
    [signal.lfilter(b, a, x)] is then called with two arguments,
    [signal.lfilter(sos, signal_data)]: the call raises [TypeError]
    before any filtering. *)
Definition cheby2_lowpass_filter (signal_data : list float)
  (sample_rate : float) (filter_order : Z) (freq ripple : float)
  : Result (list float) :=
  reraise "Error applying Chebyshev Type II lowpass filter: "
    (let* sos :=
       signal_cheby2_ba filter_order ripple [freq] Lowpass sample_rate in
     Raise (TypeError
       "lfilter() missing 1 required positional argument: 'x'")).

Definition cheby2_bandpass_filter (signal_data : list float)
  (sample_rate : float) (filter_order : Z) (freqmin freqmax ripple : float)
  : Result (list float) :=
  reraise "Error applying Chebyshev Type II bandpass filter: "
    (let* sos :=
       signal_cheby2_sos filter_order ripple [freqmin; freqmax] Bandpass
         sample_rate in
     let* filtered_signal_data := signal_sosfilt sos signal_data in
     Ok filtered_signal_data).

End Chebyshev.

End IIR_Filters.

Module FIR_Filters.

(** *** The wavelet-denoising filter, read on array shapes.

    [wavelet_filter] is three calls into PyWavelets; what they do to the
    length of a trace is fixed by the length of the decomposition filter
    [dec_len] of the wavelet (2 for 'haar', 8 for 'db4') and the default
    signal extension mode 'symmetric'. *)

(** [pywt.dwt_coeff_len(data_len, filter_len, 'symmetric')]: the length
    of [cA] and of [cD] after one [dwt]. *)
Definition dwt_coeff_len (data_len filter_len : nat) : nat :=
  (data_len + filter_len - 1) / 2.

(** The length [idwt] reconstructs from coefficient arrays of length
    [coeff_len]. *)
Definition idwt_len (coeff_len filter_len : nat) : nat :=
  2 * coeff_len + 2 - filter_len.

(** [pywt.wavedec(data, wavelet, level=level)] on shapes: the list
    [[cA_n, cD_n, ..., cD_1]] of coefficient lengths. [ds] collects the
    detail lengths of the levels already done. *)
Fixpoint wavedec_shapes (data_len dec_len level : nat) (ds : list nat)
  : list nat :=
  match level with
  | O => data_len :: ds
  | S level' =>
      let m := dwt_coeff_len data_len dec_len in
      wavedec_shapes m dec_len level' (m :: ds)
  end.

(** [pywt.threshold(c, value, mode='soft')] is elementwise. *)
Definition threshold_shape (c : nat) : nat := c.

(** [pywt.waverec(coeffs, wavelet)] on shapes: starting from [cA_n], each
    detail array is merged by [idwt]; an approximation one sample longer
    than the detail array loses its last sample first, any other
    difference in length is an error. *)
Fixpoint waverec_shapes (dec_len a : nat) (ds : list nat) : Result nat :=
  match ds with
  | [] => Ok a
  | d :: ds' =>
      if (a =? d)%nat || (a =? d + 1)%nat
      then waverec_shapes dec_len (idwt_len d dec_len) ds'
      else Raise (ValueError "coefficient shape mismatch")
  end.

(** [wavelet_filter(signal_data, wavelet_type, level)] on shapes: the
    length of the array it returns for a trace of [data_len] samples.
    The first [dwt] of a decomposition refuses a trace without samples
    ([dwt_coeff_len] raises [ValueError]); after it every length is at
    least 1. *)
Definition wavelet_filter_shape (data_len dec_len level : nat) : Result nat :=
  reraise "Error applying wavelet filter: "
    (if (data_len =? 0)%nat && (0 <? level)%nat then
       Raise (ValueError "Value of data_len must be greater than zero.")
     else
       let coeffs := wavedec_shapes data_len dec_len level [] in
       match coeffs with
       | [] => Raise (ValueError "Coefficient list too short")
       | cA :: cDs =>
           let cDs := map threshold_shape cDs in
           waverec_shapes dec_len cA cDs
       end).

(** The next even number. *)
Definition up_even (n : nat) : nat := n + n mod 2.

End FIR_Filters.

(* ------------------------------------------------------------------ *)
(** ** signals/mute.py *)

Module Mute.
Import Np NpOps.

Definition top_mute (data : ref) (mute_time sample_interval : float)
  : M ref :=
  let! q := lift (truediv mute_time sample_interval) in
  let! mute_sample := lift (int_of_float q) in
  let! muted_data := copy data in
  let! _ := update muted_data
              (fun a => Ok (setitem_cols_before mute_sample 0 a)) in
  ret muted_data.

Definition bottom_mute (data : ref) (mute_time sample_interval : float)
  : M ref :=
  let! q := lift (truediv mute_time sample_interval) in
  let! mute_sample := lift (int_of_float q) in
  let! muted_data := copy data in
  let! _ := update muted_data
              (fun a => Ok (setitem_cols_from mute_sample 0 a)) in
  ret muted_data.

(** [offsets] is read, never written: it is passed as its contents. *)
Definition offset_mute (data : ref) (offsets : list float)
  (mute_offset : float) : M ref :=
  let! muted_data := copy data in
  let! _ := forM_ (imap (fun i offset => (i, offset)) offsets)
              (fun '(i, offset) =>
                 if (mute_offset <? offset)%float
                 then update muted_data (setitem_row (Z.of_nat i) 0)
                 else ret tt) in
  ret muted_data.

(** The inner loop of [time_variant_mute] on one trace:
    [trace[i] *= (1 - factor)] for [i] from the first to the last
    muted sample. *)
Definition ramp_trace (mute_start_sample mute_end_sample : Z)
  (trace : list float) : Result (list float) :=
  foldM (fun trace i =>
           let factor :=
             (float_of_Z (i - mute_start_sample)
              / float_of_Z (mute_end_sample - mute_start_sample))%float in
           let* k := index i (length trace) in
           Ok (alter (fun x => (x * (1 - factor))%float) k trace))
        (range mute_start_sample mute_end_sample) trace.

Definition time_variant_mute (data : ref)
  (initial_time final_time sample_interval : float) : M ref :=
  let! a := load data in
  let num_samples := ncols a in
  let! q := lift (truediv initial_time sample_interval) in
  let! mute_start_sample := lift (int_of_float q) in
  let! q := lift (truediv final_time sample_interval) in
  let! mute_end_sample := lift (int_of_float q) in
  let! muted_data := copy data in
  let! _ := update muted_data
              (mapM (ramp_trace mute_start_sample mute_end_sample)) in
  ret muted_data.

(** The state of a [Mute] object that the polygon mute reads. *)
Record Mute : Type := {
  mute_polygon : option (list (float * float));
  data : option ref
}.

Section Polygon.
(** [Path(polygon).contains_point((x, y))] of matplotlib. *)
Variable contains_point : list (float * float) -> Z * Z -> bool.

Definition is_inside_polygon (polygon : list (float * float))
  (x y : Z) : bool :=
  contains_point polygon (x, y).

(** [apply_polygon_mute]: with no polygon or no data, [self.data] itself
    is returned; otherwise the mask is built cell by cell and
    [np.where(mask, 0, self.data)] is a new array. *)
Definition apply_polygon_mute (self : Mute) : M (option ref) :=
  match mute_polygon self, data self with
  | Some polygon, Some d =>
      let! a := load d in
      let mask :=
        imap (fun i trace =>
                imap (fun j _ =>
                        is_inside_polygon polygon (Z.of_nat i) (Z.of_nat j))
                     trace) a in
      let! muted_data :=
        alloc (zip_with (zip_with (fun (m : bool) x => if m then 0%float else x))
                 mask a) in
      ret (Some muted_data)
  | _, _ => ret (data self)
  end.

End Polygon.

(** A [Mute] object holding the array at reference 0 and no polygon,
    and a store in which reference 0 is a matrix of one trace. *)
Definition mute_without_polygon : Mute :=
  {| mute_polygon := None; data := Some 0%nat |}.
Definition one_trace_store : store := [ [ [1%float; 2%float] ] ].
Definition nowhere_inside (polygon : list (float * float)) (xy : Z * Z)
  : bool := false.

(** A region that holds the first sample of every trace, whatever the
    polygon. *)
Definition first_sample_inside (polygon : list (float * float))
  (xy : Z * Z) : bool := (snd xy =? 0)%Z.

(** The binary64 numbers nearest to 0.1 (a mute time of 100 ms), 0.001
    (a sample interval of 1 ms) and 0.002. *)
Definition seconds_0_1 : float := 0x1.999999999999ap-4%float.
Definition seconds_0_001 : float := 0x1.0624dd2f1a9fcp-10%float.
Definition seconds_0_002 : float := 0x1.0624dd2f1a9fcp-9%float.

(** A store of one matrix of two traces of three samples. *)
Definition two_trace_store : store :=
  [ [ [1%float; 2%float; 3%float]; [4%float; 5%float; 6%float] ] ].

End Mute.

Module PredefinedMute.
Import Np NpOps.

Definition shallow_zone_mute (data : ref) (sample_interval : float) : M ref :=
  let mute_time := 0x1.999999999999ap-3%float in
  Mute.top_mute data mute_time sample_interval.

Definition marine_direct_wave_mute (data : ref) (sample_interval : float)
  : M ref :=
  let mute_time := Mute.seconds_0_1 in
  Mute.top_mute data mute_time sample_interval.

(** The bottom 200 ms: the mute time is the length of a trace in seconds
    less 0.2, whatever its sign. *)
Definition deep_zone_mute (data : ref) (sample_interval : float) : M ref :=
  let! a := load data in
  let mute_time :=
    (float_of_Z (Z.of_nat (ncols a)) * sample_interval
     - 0x1.999999999999ap-3)%float in
  Mute.bottom_mute data mute_time sample_interval.

End PredefinedMute.

(* ------------------------------------------------------------------ *)
(** ** Gains.py *)

Module Gains.
Import Np NpOps.

(** The floor of the local RMS, [1e-10]. *)
Definition rms_floor : float := 0x1.b7cdfd9d7bdbbp-34%float.

(** The body of the loop of [agc_gain] for one trace. *)
Definition agc_trace (window_size : Z) (trace : list float)
  : Result (list float) :=
  let envelope := map PrimFloat.abs trace in
  if (window_size <? 0)%Z then
    Raise (ValueError "negative dimensions are not allowed")
  else
    let kernel :=
      replicate (Z.to_nat window_size)
        (1 / float_of_Z window_size)%float in
    let* mean_square :=
      Arr.convolve_same 0%float PrimFloat.add PrimFloat.mul
        (map pow2 envelope) kernel in
    let rms := map PrimFloat.sqrt mean_square in
    let rms :=
      map (fun r => if (r <? rms_floor)%float then rms_floor else r) rms in
    elementwise PrimFloat.div trace rms.

Definition agc_gain (data : ref) (window_size : Z) : M ref :=
  let! a := load data in
  let n_traces := Z.of_nat (length a) in
  let! agc_data := zeros_like data in
  let! _ := forM_ (range 0 n_traces)
              (fun i =>
                 let! a := load data in
                 let! k := lift (index i (length a)) in
                 match a !! k with
                 | Some trace =>
                     let! row := lift (agc_trace window_size trace) in
                     update agc_data (setitem_row_values i row)
                 | None => raise (IndexError "index out of bounds")
                 end) in
  ret agc_data.

Section Power.
(** [x ** y] on floats. *)
Variable np_power : float -> float -> float.

Definition tvg_gain (data : ref) (time_gradient : float) : M ref :=
  let! a := load data in
  let n_traces := Z.of_nat (length a) in
  let n_samples := Z.of_nat (ncols a) in
  let! tvg_data := zeros_like data in
  let time_curve :=
    map (fun k => np_power (float_of_Z k) time_gradient)
        (range 1 (n_samples + 1)) in
  let! _ := forM_ (range 0 n_traces)
              (fun i =>
                 let! a := load data in
                 let! k := lift (index i (length a)) in
                 match a !! k with
                 | Some trace =>
                     let! row :=
                       lift (elementwise PrimFloat.mul trace time_curve) in
                     update tvg_data (setitem_row_values i row)
                 | None => raise (IndexError "index out of bounds")
                 end) in
  ret tvg_data.

End Power.

(** [x ** y] at [y = 2]. *)
Definition power_of_two (x y : float) : float := (x * x)%float.

Definition constant_gain (data : ref) (gain_factor : float) : M ref :=
  let! a := load data in
  let! const_gain_data :=
    alloc (map (map (fun x => (x * gain_factor)%float)) a) in
  ret const_gain_data.

End Gains.

(* ------------------------------------------------------------------ *)
(** ** processing/trace_qc.py *)

Module TraceQC.
Import Np NpOps.

Definition annotate_traces (data : ref) (flagged_indices : list Z) : M ref :=
  let! annotated := copy data in
  let! _ := forM_ flagged_indices
              (fun idx => update annotated (setitem_row idx PrimFloat.nan)) in
  ret annotated.

(** The thresholds a [TraceQC] object is built with. *)
Record TraceQC : Type := {
  threshold_dead : float;
  clip_threshold : float;
  energy_threshold : float
}.

(** [TraceQC()]: the thresholds [1e-6], [0.95] and [1e-3]. *)
Definition default : TraceQC :=
  {| threshold_dead := 0x1.0c6f7a0b5ed8dp-20;
     clip_threshold := 0x1.e666666666666p-1;
     energy_threshold := 0x1.0624dd2f1a9fcp-10 |}.

(** [enumerate(data)] *)
Definition enumerate {A} (l : list A) : list (Z * A) :=
  imap (fun i x => (Z.of_nat i, x)) l.

(** The detectors read [data] and build a Python list of trace indices:
    [data] is passed as its contents. *)
Definition detect_dead_traces (self : TraceQC) (data : ndarray)
  : Result (list Z) :=
  foldM (fun dead_indices '(i, trace) =>
           if forallb (fun x => (PrimFloat.abs x <? threshold_dead self)%float)
                trace
           then Ok (dead_indices ++ [i])
           else Ok dead_indices)
        (enumerate data) [].

(** [np.max] of a one-dimensional array: it raises on an array with no
    element, and is NaN when an element is NaN. *)
Definition np_max (l : list float) : Result float :=
  match l with
  | [] =>
      Raise (ValueError "zero-size array to reduction operation maximum which has no identity")
  | x :: xs =>
      Ok (foldl (fun m y =>
                   if PrimFloat.is_nan m || PrimFloat.is_nan y
                   then PrimFloat.nan
                   else if (m <? y)%float then y else m) x xs)
  end.

(** [count_max > len(trace) * 0.1] compares the count with a float. *)
Definition detect_clipped_traces (self : TraceQC) (data : ndarray)
  : Result (list Z) :=
  foldM (fun clipped_indices '(i, trace) =>
           let* max_val := np_max (map PrimFloat.abs trace) in
           let count_max :=
             length (List.filter
                       (fun x => (clip_threshold self * max_val
                                  <? PrimFloat.abs x)%float) trace) in
           if (float_of_Z (Z.of_nat (length trace)) * 0x1.999999999999ap-4
               <? float_of_Z (Z.of_nat count_max))%float
           then Ok (clipped_indices ++ [i])
           else Ok clipped_indices)
        (enumerate data) [].

(** The three lists [run_all_checks] returns under the keys ['dead'],
    ['clipped'] and ['low_energy']. *)
Record Checks : Type := {
  dead : list Z;
  clipped : list Z;
  low_energy : list Z
}.

Section Mean.
(** [np.mean] of a one-dimensional array (NumPy sums pairwise). *)
Variable np_mean : list float -> float.

Definition detect_low_energy_traces (self : TraceQC) (data : ndarray)
  : Result (list Z) :=
  foldM (fun low_energy_indices '(i, trace) =>
           let energy := PrimFloat.sqrt (np_mean (map pow2 trace)) in
           if (energy <? energy_threshold self)%float
           then Ok (low_energy_indices ++ [i])
           else Ok low_energy_indices)
        (enumerate data) [].

Definition run_all_checks (self : TraceQC) (data : ndarray) : Result Checks :=
  let* d := detect_dead_traces self data in
  let* c := detect_clipped_traces self data in
  let* l := detect_low_energy_traces self data in
  Ok {| dead := d; clipped := c; low_energy := l |}.

End Mean.

(** Whether one of [indices] names the trace [t] of [n] traces, counting
    from the end when it is negative. *)
Definition names_trace (n : nat) (indices : list Z) (t : nat) : bool :=
  existsb (fun i => match index i n with
                    | Ok k => (k =? t)%nat
                    | Raise _ => false
                    end) indices.

(** A mean for examples: the sum from left to right over the length. *)
Definition mean_left_to_right (l : list float) : float :=
  (foldl PrimFloat.add 0 l / float_of_Z (Z.of_nat (length l)))%float.

(** Three traces of two samples: a dead one, a live one, a dead one. *)
Definition three_trace_store : store :=
  [ [ [0; 0]; [1; 2]; [0; 0] ]%float ].

End TraceQC.

(* ------------------------------------------------------------------ *)
(** ** Whole-matrix filter and deconvolution *)

Module MatrixOps.
Import Np NpOps.

Section SciPy.
(** [np.exp] *)
Variable np_exp : float -> float.
(** [scipy.signal.wiener(trace, mysize, noise)] *)
Variable signal_wiener : list float -> Z -> float -> Result (list float).

(** [np.exp(-(X**2 + Y**2) / (2 * (filter_order / 6)**2))] at one grid
    point. *)
Definition gauss (x y filter_order : Z) : float :=
  np_exp (float_of_Z (- (x * x + y * y))
          / (2 * pow2 (float_of_Z filter_order / 6)))%float.

(** [FIR_Filters.fk_filter] *)
Definition fk_filter (signal_data : ref) (sample_rate : float)
  (filter_order : Z) : M ref :=
  let! a := load signal_data in
  let! filtered_signal_data :=
    alloc (Arr.fk_filter_values 0%float PrimFloat.add PrimFloat.mul
             gauss PrimFloat.div a filter_order) in
  ret filtered_signal_data.

(** [Deconvolution.wiener_deconvolution] *)
Definition wiener_deconvolution (seismic_data : ref) (window_size : Z)
  (noise_power : float) : M ref :=
  let! deconvolved_data := zeros_like seismic_data in
  let! a := load seismic_data in
  let! _ := forM_ (range 0 (Z.of_nat (length a)))
              (fun i =>
                 let! a := load seismic_data in
                 let! k := lift (index i (length a)) in
                 match a !! k with
                 | Some trace =>
                     let! row :=
                       lift (signal_wiener trace window_size noise_power) in
                     update deconvolved_data (setitem_row_values i row)
                 | None => raise (IndexError "index out of bounds")
                 end) in
  ret deconvolved_data.

End SciPy.

End MatrixOps.

(* ------------------------------------------------------------------ *)
(** ** signals/deconvolution.py and the F-K filter in exact arithmetic

    The statements about wavelet normalisation, about the linear
    system of the spiking deconvolution and about the F-K kernel are
    statements of exact arithmetic: here a sample is a real number.
    NumPy's NaN (the result of dividing by a zero peak) has no
    counterpart; no statement is made about a wavelet whose peak is 0. *)

Module Exact.

Local Open Scope R_scope.

Abbreviation vector := (list R).
Abbreviation matrix := (list (list R)).

Definition sum : vector -> R := Arr.sum 0 Rplus.
Definition dot : vector -> vector -> R := Arr.dot 0 Rplus Rmult.
Definition zeros (n : nat) : vector := replicate n 0.

(** [np.correlate(trace, trace, mode='full')[len(trace)-1:]] *)
Definition autocorrelation (trace : vector) : Result vector :=
  match trace with
  | [] => Raise (ValueError "first argument cannot be empty")
  | _ => Ok (Arr.autocorrelation 0 Rplus Rmult trace)
  end.

(** [np.convolve(a, v, mode='same')] *)
Definition convolve_same : vector -> vector -> Result vector :=
  Arr.convolve_same 0 Rplus Rmult.

(** The largest absolute value of a non-empty array. *)
Definition peak (x : R) (xs : vector) : R := foldr Rmax (Rabs x) (map Rabs xs).

(** [np.max(np.abs(w))] *)
Definition max_abs (w : vector) : Result R :=
  match w with
  | [] => Raise (ValueError "zero-size array to reduction operation maximum")
  | x :: xs => Ok (peak x xs)
  end.

(** [w / np.max(np.abs(w))] *)
Definition normalise_peak (w : vector) : Result vector :=
  let* peak := max_abs w in
  Ok (map (fun x => x / peak) w).

(** [scipy.linalg.toeplitz(c)] for a real first column: entry [(i, j)]
    is [c[|i - j|]]. *)
Definition toeplitz (c : vector) : matrix :=
  let n := length c in
  map (fun i => map (fun j => nth ((i - j) + (j - i)) c 0) (seq 0 n))
      (seq 0 n).

Definition mat_vec (A : matrix) (x : vector) : vector :=
  map (fun row => dot row x) A.

Definition is_square (A : matrix) : Prop :=
  Forall (fun row => length row = length A) A.

(** [x] solves [A x = b]. *)
Definition solves (A : matrix) (b x : vector) : Prop :=
  length x = length A /\ mat_vec A x = b.

(** A square matrix is nonsingular when every right-hand side has
    exactly one solution. *)
Definition nonsingular (A : matrix) : Prop :=
  is_square A /\
  forall b : vector, length b = length A ->
    exists x, solves A b x /\ forall y, solves A b y -> y = x.

(** [np.linalg.solve(A, b)] by its contract: shapes that do not fit
    raise, a singular matrix raises [LinAlgError], and otherwise the
    result is the solution of the system. *)
Definition linalg_solve (A : matrix) (b : vector) : Result vector :=
  if excluded_middle_informative (is_square A /\ length b = length A) then
    if excluded_middle_informative (nonsingular A) then
      Ok (epsilon (inhabits []) (solves A b))
    else Raise (LinAlgError "Singular matrix")
  else Raise (ValueError "solve: mismatch in its core dimension").

(** [int(x)] of a real: truncation towards zero. *)
Definition int_of_R (x : R) : Z :=
  if Rle_dec 0 x then Int_part x else (- Int_part (- x))%Z.

(** [np.linspace(start, stop, num)] *)
Definition linspace (start stop : R) (num : Z) : Result vector :=
  if (num <? 0)%Z then
    Raise (ValueError "Number of samples must be non-negative")
  else if (num =? 1)%Z then Ok [start]
  else
    let step := (stop - start) / IZR (num - 1) in
    Ok (map (fun i => start + IZR i * step) (range 0 num)).

Module Wavelets.

(** The Ricker wavelet before it is normalised. *)
Definition ricker_samples (frequency dt length : R) : Result vector :=
  if Req_EM_T dt 0 then Raise ZeroDivisionError
  else
    let* t := linspace (- length / 2) (length / 2) (int_of_R (length / dt)) in
    Ok (map (fun t =>
               (1 - 2 * (PI ^ 2) * (frequency ^ 2) * (t ^ 2))
               * exp (- (PI ^ 2) * (frequency ^ 2) * (t ^ 2))) t).

Definition ricker (frequency dt length : R) : Result vector :=
  let* wavelet := ricker_samples frequency dt length in
  normalise_peak wavelet.

Definition wavelet_autocorrelation (trace : vector) (wavelet_length : Z)
  : Result vector :=
  let* autocorr := autocorrelation trace in
  let wavelet :=
    take (slice_stop wavelet_length (length autocorr)) autocorr in
  normalise_peak wavelet.

Definition wavelet_statistically (trace : vector) (wavelet_length : Z)
  : Result vector :=
  let* autocorr := autocorrelation trace in
  let wavelet_autocorr :=
    take (slice_stop wavelet_length (length autocorr)) autocorr in
  let n := length wavelet_autocorr in
  let* wavelet :=
    linalg_solve (toeplitz (take (slice_stop (-1) n) wavelet_autocorr))
                 (drop (slice_start 1 n) wavelet_autocorr) in
  Ok (1 :: map Ropp wavelet).

Section Correlate.
(** [np.correlate(trace, reflector, mode='same')] *)
Variable np_correlate_same : vector -> vector -> Result vector.

Definition estimate_wavelet_matching_filter (trace reflector : vector)
  : Result vector :=
  let* wavelet := np_correlate_same trace reflector in
  normalise_peak wavelet.

End Correlate.

(** Cross-correlation of real arrays as convolution with the reversed
    second array (NumPy's own definition when the first array is the
    longer one). *)
Definition correlate_same (a v : vector) : Result vector :=
  convolve_same a (rev v).

(** A smooth five-sample trace. *)
Definition bump : vector := [1; 2; 3; 2; 1].

End Wavelets.

Module Deconvolution.

(** The wavelet [Spiking_Deconvolution] builds its Toeplitz matrix from:
    the first [wavelet_length] lags of the autocorrelation. *)
Definition spiking_wavelet (trace : vector) (wavelet_length : Z) : vector :=
  take (slice_stop wavelet_length (length trace))
       (Arr.autocorrelation 0 Rplus Rmult trace).

Definition Spiking_Deconvolution (trace : vector) (wavelet_length : Z)
  : Result vector :=
  let* autocorr := autocorrelation trace in
  let wavelet :=
    take (slice_stop wavelet_length (length autocorr)) autocorr in
  if (wavelet_length <? 0)%Z then
    Raise (ValueError "negative dimensions are not allowed")
  else
    let* filter_coeffs :=
      linalg_solve (toeplitz wavelet) (zeros (Z.to_nat wavelet_length)) in
    let* deconvolved_trace := convolve_same trace filter_coeffs in
    Ok deconvolved_trace.

(** [a[start:stop]] *)
Definition slice_between {A} (start stop : Z) (a : list A) : list A :=
  let i := slice_start start (length a) in
  let j := slice_stop stop (length a) in
  take (j - i) (drop i a).

Definition Predictive_Deconvolution (trace : vector) (lag : Z)
  : Result vector :=
  let* autocorr := autocorrelation trace in
  let* filter_coeffs :=
    linalg_solve
      (toeplitz (take (slice_stop lag (length autocorr)) autocorr))
      (slice_between 1 (lag + 1) autocorr) in
  let* deconvolved_trace :=
    convolve_same trace (map Ropp filter_coeffs) in
  Ok deconvolved_trace.

(** The matrix [Predictive_Deconvolution] solves with: the Toeplitz
    matrix of the first [lag] lags of the autocorrelation. *)
Definition prediction_matrix (trace : vector) (lag : Z) : matrix :=
  toeplitz (take (slice_stop lag (length trace))
              (Arr.autocorrelation 0 Rplus Rmult trace)).

End Deconvolution.

Module FIR_Filters.

(** [np.exp(-(X**2 + Y**2) / (2 * (filter_order / 6)**2))] at one grid
    point. *)
Definition gauss (x y filter_order : Z) : R :=
  exp (IZR (- (x * x + y * y)) / (2 * (IZR filter_order / 6) ^ 2)).

Definition fk_filter (signal_data : matrix) (sample_rate : R)
  (filter_order : Z) : Result matrix :=
  reraise "Error applying F-K FIR filter: "
    (let filtered_signal_data :=
       Arr.fk_filter_values 0 Rplus Rmult gauss Rdiv
         signal_data filter_order in
     Ok filtered_signal_data).

(** The unnormalised window: [filter_order] rows of [filter_order]
    positive entries. *)
Definition gauss_grid (filter_order : Z) : matrix :=
  map (fun yv => map (fun xv => gauss xv yv filter_order)
                     (range ((- filter_order) / 2) (filter_order / 2)))
      (range ((- filter_order) / 2) (filter_order / 2)).

(** The matrix of [n_traces] by [n_samples] whose entries are all [c]. *)
Definition constant_matrix (n_traces n_samples : nat) (c : R) : matrix :=
  replicate n_traces (replicate n_samples c).

End FIR_Filters.

End Exact.

(* ================================================================== *)
(** * Part II. Properties                                               *)
(* ================================================================== *)

(** ** Results, loops and ranges *)

Module PyFacts.

Lemma bind_Ok_r {A} (r : Result A) : (let* x := r in Ok x) = r.
Proof. destruct r; reflexivity. Qed.

Lemma mapM_length {A B} (f : A -> Result B) (xs : list A) (ys : list B) :
  mapM f xs = Ok ys -> length ys = length xs.
Proof.
  revert ys. induction xs as [|x xs IH]; simpl; intros ys H.
  - injection H as <-. reflexivity.
  - destruct (f x) as [y|e]; simpl in H; [|discriminate].
    destruct (mapM f xs) as [ys'|e]; simpl in H; [|discriminate].
    injection H as <-. simpl. f_equal. apply IH. reflexivity.
Qed.

Lemma range_length (lo hi : Z) : length (range lo hi) = Z.to_nat (hi - lo).
Proof. unfold range. rewrite length_map, length_seq. reflexivity. Qed.

End PyFacts.

(** ** IEEE comparisons *)

Section FloatOrder.

Lemma SFcompare_antisym (a b : spec_float) (c : comparison) :
  SFcompare a b = Some c -> SFcompare b a = Some (CompOpp c).
Proof.
  destruct a as [sa|sa| |sa ma ea], b as [sb|sb| |sb mb eb]; simpl;
    intros H; try discriminate; injection H as <-;
    try (destruct sa; reflexivity); try (destruct sb; reflexivity);
    try (destruct sa, sb; reflexivity).
  rewrite (Z.compare_antisym ea eb).
  destruct sa, sb; simpl; try reflexivity;
    destruct (ea ?= eb)%Z; simpl; try reflexivity.
  - do 2 f_equal. symmetry. exact (Pos.compare_cont_antisym ma mb Eq).
  - f_equal. symmetry. exact (Pos.compare_cont_antisym ma mb Eq).
Qed.

(** [y <= x] excludes [x < y], also on infinities; NaN satisfies neither. *)
Lemma float_leb_not_ltb (x y : float) :
  (y <=? x)%float = true -> (x <? y)%float = false.
Proof.
  rewrite leb_spec, ltb_spec. unfold SFleb, SFltb.
  destruct (SFcompare (Prim2SF y) (Prim2SF x)) as [c|] eqn:E; [|discriminate].
  rewrite (SFcompare_antisym _ _ _ E).
  destruct c; simpl; congruence.
Qed.

End FloatOrder.

(** ** Navigation geometry *)

Module NavigationProofs.
Import NavigationFromTowFish NavigationFromShip.



(** C3 as stated does not hold for every [cable_length >= depth]: a
    cable of 1e200 is longer than a depth of 1, and the call raises
    [OverflowError] instead of returning the square root. *)
Lemma calculate_layback_overflow :
  (1 <=? 0x1.4e718d7d7625ap+664)%float = true
  /\ calculate_layback_float 0x1.4e718d7d7625ap+664 1 = Raise OverflowError
  /\ forall layback : float,
       calculate_layback_float 0x1.4e718d7d7625ap+664 1 <> Ok layback.
Proof.
  split; [|split]; [vm_compute; reflexivity..|].
  intros layback H. vm_compute in H. discriminate H.
Qed.

(** *** Coordinates embedded in the trace headers *)

(** When a header has a zero in one coordinate exactly when it has a
    zero in the other, filtering the columns one by one is filtering the
    pairs. *)
Lemma load_Nav_aligned (headers : list TraceHeader) :
  Forall (fun h => SourceX h = 0%Z <-> SourceY h = 0%Z) headers ->
  load_Nav_data_from_segyfile headers =
  map header_pair
    (List.filter (fun h => negb (SourceX h =? 0)%Z) headers).
Proof.
  unfold load_Nav_data_from_segyfile, drop_zeros, header_pair.
  induction 1 as [|h hs [Hxy Hyx] _ IH]; simpl; [reflexivity|].
  destruct (Z.eqb_spec (SourceX h) 0) as [Hx|Hx],
           (Z.eqb_spec (SourceY h) 0) as [Hy|Hy]; simpl.
  - exact IH.
  - destruct (Hy (Hxy Hx)).
  - destruct (Hx (Hyx Hy)).
  - f_equal. exact IH.
Qed.

(** C7. Towfish extraction at [headers_x_missing]: the x column keeps
    [1], the y column keeps [5; 6], and the zip pairs the x of the second
    trace with the y of the first. The pair returned was read from no
    header. *)
Theorem load_Nav_misaligned_pair :
  load_Nav_data_from_segyfile headers_x_missing = [(1, 5)%Z]
  /\ ~ In (1, 5)%Z (map header_pair headers_x_missing).
Proof.
  split; [reflexivity|].
  simpl. intros [H|[H|[]]]; discriminate H.
Qed.

(** *** Ship navigation to SBP navigation *)

Section ShipToSbp.
Variables (np_cos np_sin : float -> float).
Variable np_arctan2 : float -> float -> float.
Variable assign_sbp_coords_to_segy : list (float * float) -> Result unit.

(** The loop runs [len - 1] times: it leaves one pair per record but
    the last. *)
Lemma sbp_coords_loop_length (df : DataFrame) (cs : list (float * float)) :
  sbp_coords_loop np_cos np_sin np_arctan2 df = Ok cs ->
  length cs = (length (rows df) - 1)%nat.
Proof.
  unfold sbp_coords_loop. intros H.
  rewrite (PyFacts.mapM_length _ _ _ H), PyFacts.range_length. lia.
Qed.

(** No table makes [ship_to_sbp_nav] return: an empty loop result cannot
    be unpacked, and a non-empty one is a row short for the column
    assignment. *)
Lemma ship_to_sbp_nav_raises (df : DataFrame) :
  exists e,
    ship_to_sbp_nav np_cos np_sin np_arctan2 assign_sbp_coords_to_segy df
    = Raise e.
Proof.
  unfold ship_to_sbp_nav.
  destruct (sbp_coords_loop np_cos np_sin np_arctan2 df) as [cs|e] eqn:E;
    simpl; [|eauto].
  apply sbp_coords_loop_length in E.
  destruct cs as [|c cs]; [eauto|].
  rewrite length_map.
  destruct (Nat.eqb_spec (length (c :: cs)) (length (rows df))) as [Hn|Hn];
    simpl; [|eauto].
  simpl in E, Hn. lia.
Qed.

(** C6. Ship-to-SBP conversion at [track2]: the loop computes one
    coordinate pair (for the first record, offset 5 + 80) and none for
    the last record, and the call then raises instead of returning. *)
Theorem ship_to_sbp_nav_two_records :
  sbp_coords_loop np_cos np_sin np_arctan2 track2 =
    Ok [ calculate_sbp_coords np_cos np_sin (0, 0)%float 85%float
           (np_arctan2 0 10)%float ]
  /\ exists msg,
       ship_to_sbp_nav np_cos np_sin np_arctan2 assign_sbp_coords_to_segy
         track2
       = Raise (ValueError msg).
Proof.
  split.
  - vm_compute. reflexivity.
  - eexists. vm_compute. reflexivity.
Qed.

End ShipToSbp.

End NavigationProofs.

(** ** Filters *)

Module FilterProofs.
Import IIR_Filters FIR_Filters.

Section ButterworthGuards.
Variable sos : Type.
Variable signal_butter : Z -> list float -> btype -> float -> Result sos.
Variable signal_sosfilt : sos -> list float -> Result (list float).


End ButterworthGuards.



(** *** The wavelet-denoising filter *)

Lemma idwt_dwt_len (n F : nat) :
  F mod 2 = 0 -> 2 <= F -> idwt_len (dwt_coeff_len n F) F = up_even n.
Proof.
  intros HF HF2. unfold idwt_len, dwt_coeff_len, up_even.
  pose proof (Nat.div_mod_eq (n + F - 1) 2) as Hd.
  pose proof (Nat.div_mod_eq n 2) as Hn.
  pose proof (Nat.div_mod_eq F 2) as Hf.
  pose proof (Nat.mod_upper_bound (n + F - 1) 2 ltac:(lia)) as B1.
  pose proof (Nat.mod_upper_bound n 2 ltac:(lia)) as B2.
  lia.
Qed.

(** Reconstruction undoes the levels of a decomposition, up to the
    parity of the length it started from. *)
Lemma waverec_wavedec (F : nat) (HF : F mod 2 = 0) (HF2 : 2 <= F)
  (level n : nat) (ds : list nat) :
  match wavedec_shapes n F (S level) ds with
  | [] => False
  | cA :: cDs =>
      exists front, cDs = front ++ ds /\
        forall rest, waverec_shapes F cA (front ++ rest)
                     = waverec_shapes F (up_even n) rest
  end.
Proof.
  revert n ds. induction level as [|level IH]; intros n ds.
  - simpl. exists [dwt_coeff_len n F]. split; [reflexivity|].
    intros rest. simpl. rewrite Nat.eqb_refl. simpl.
    rewrite idwt_dwt_len by assumption. reflexivity.
  - change (wavedec_shapes n F (S (S level)) ds)
      with (wavedec_shapes (dwt_coeff_len n F) F (S level)
              (dwt_coeff_len n F :: ds)).
    specialize (IH (dwt_coeff_len n F) (dwt_coeff_len n F :: ds)).
    destruct (wavedec_shapes _ _ _ _) as [|cA cDs]; [exact IH|].
    destruct IH as (front & -> & Hrec).
    exists (front ++ [dwt_coeff_len n F]). split.
    + rewrite <- app_assoc. reflexivity.
    + intros rest. rewrite <- app_assoc. simpl. rewrite Hrec. simpl.
      set (m := dwt_coeff_len n F).
      assert (Hm : ((up_even m =? m) || (up_even m =? m + 1))%nat = true).
      { unfold up_even.
        pose proof (Nat.mod_upper_bound m 2 ltac:(lia)) as B.
        destruct (Nat.eqb_spec (m + m mod 2) m);
          destruct (Nat.eqb_spec (m + m mod 2) (m + 1)); simpl; try reflexivity.
        lia. }
      rewrite Hm. unfold m. rewrite idwt_dwt_len by assumption. reflexivity.
Qed.

(** For every wavelet with an even filter length, every level from 1
    on and every trace with at least one sample, the filter returns a
    trace of even length: the input length when that is even, one sample
    more when it is odd. *)
Lemma wavelet_filter_shape_up_even (n F level : nat) :
  F mod 2 = 0 -> 2 <= F -> 1 <= level -> 1 <= n ->
  wavelet_filter_shape n F level = Ok (up_even n).
Proof.
  intros HF HF2 Hl Hn. destruct level as [|level]; [lia|].
  unfold wavelet_filter_shape.
  destruct (Nat.eqb_spec n 0) as [->|_]; [lia|]. cbn [andb].
  pose proof (waverec_wavedec F HF HF2 level n []) as H.
  destruct (wavedec_shapes n F (S level) []) as [|cA cDs]; [destruct H|].
  destruct H as (front & -> & Hrec).
  rewrite app_nil_r. unfold threshold_shape. rewrite map_id.
  specialize (Hrec []). rewrite app_nil_r in Hrec. rewrite Hrec.
  reflexivity.
Qed.

(** C1. Shape invariance fails for the wavelet-denoising filter on a
    trace with an odd number of samples: 1001 samples filtered with 'db4'
    (filter length 8) at the default level 5 come back as 1002 samples,
    and 3 samples filtered with 'haar' at level 1 come back as 4. *)
Theorem wavelet_filter_odd_trace_grows :
  wavelet_filter_shape 1001 8 5 = Ok 1002
  /\ wavelet_filter_shape 3 2 1 = Ok 4.
Proof. split; vm_compute; reflexivity. Qed.

End FilterProofs.

(** ** Operations on the store *)

Module StoreProofs.
Import Np NpOps Effect.

(** *** Rules for the weakest precondition *)

Lemma wp_ret {A} (a : A) post st : post (Ok a) st -> wp (ret a) post st.
Proof. intros H. exact H. Qed.

Lemma wp_raise {A} (e : exn) (post : Result A -> store -> Prop) st :
  post (Raise e) st -> wp (raise e) post st.
Proof. intros H. exact H. Qed.

Lemma wp_lift {A} (r : Result A) post st : post r st -> wp (lift r) post st.
Proof. intros H. exact H. Qed.

Lemma wp_bind {A B} (c : M A) (k : A -> M B) post st :
  wp c (fun r st' =>
          match r with
          | Ok a => wp (k a) post st'
          | Raise e => post (Raise e) st'
          end) st ->
  wp (bindM c k) post st.
Proof.
  unfold wp, bindM. destruct (c st) as [[a|e] st']; intros H; exact H.
Qed.

Lemma wp_mono {A} (c : M A) (post post' : Result A -> store -> Prop) st :
  (forall r st', post r st' -> post' r st') -> wp c post st -> wp c post' st.
Proof. unfold wp. destruct (c st) as [r st']. intros H. apply H. Qed.

Lemma wp_alloc (a : ndarray) post st :
  post (Ok (length st)) (st ++ [a]) -> wp (alloc a) post st.
Proof. intros H. exact H. Qed.

Lemma wp_load (r : ref) post st :
  (forall a, st !! r = Some a -> post (Ok a) st) ->
  (forall e, st !! r = None -> post (Raise e) st) ->
  wp (load r) post st.
Proof.
  intros Hs Hn. unfold wp, load.
  destruct (st !! r) as [a|] eqn:E; [apply Hs|apply Hn]; reflexivity.
Qed.

Lemma wp_update (r : ref) (f : ndarray -> Result ndarray) post st :
  (forall a a', st !! r = Some a -> f a = Ok a' ->
     post (Ok tt) (<[r := a']> st)) ->
  (forall e, post (Raise e) st) ->
  wp (update r f) post st.
Proof.
  intros Hs Hn. unfold wp, update.
  destruct (st !! r) as [a|] eqn:E; [|apply Hn].
  destruct (f a) as [a'|e] eqn:F; [|apply Hn].
  apply (Hs a a'); [reflexivity|exact F].
Qed.

Lemma wp_forM_ {A} (inv : store -> Prop) (xs : list A)
  (body : A -> M unit) st :
  inv st ->
  (forall x st1, inv st1 -> wp (body x) (fun _ st2 => inv st2) st1) ->
  wp (forM_ xs body) (fun _ st' => inv st') st.
Proof.
  intros Hinv Hbody. revert st Hinv.
  induction xs as [|x xs IH]; intros st Hinv; simpl.
  - apply wp_ret. exact Hinv.
  - apply wp_bind. eapply wp_mono; [|apply (Hbody x st Hinv)].
    intros [[]|e] st' H; [apply IH|]; exact H.
Qed.

(** A step that reads a float from the arguments: it raises or goes on,
    and does not touch the store. *)
Lemma wp_lift_bind {A B} (r : Result A) (k : A -> M B) post st :
  (forall a, r = Ok a -> wp (k a) post st) ->
  (forall e, r = Raise e -> post (Raise e) st) ->
  wp (let! a := lift r in k a) post st.
Proof.
  intros Hok Hraise. apply wp_bind, wp_lift.
  destruct r as [a|e]; [apply Hok|apply Hraise]; reflexivity.
Qed.

(** *** Stores that only grow *)

Lemma extends_refl (st : store) : extends st st.
Proof. exists []. symmetry. apply app_nil_r. Qed.

Lemma extends_alloc (st0 st : store) (a : ndarray) :
  extends st0 st -> extends st0 (st ++ [a]).
Proof. intros [tail ->]. exists (tail ++ [a]). symmetry. apply app_assoc. Qed.

Lemma extends_length (st0 st : store) :
  extends st0 st -> length st0 <= length st.
Proof. intros [tail ->]. rewrite length_app. lia. Qed.

Lemma extends_insert (st0 st : store) (r : ref) (a : ndarray) :
  length st0 <= r -> extends st0 st -> extends st0 (<[r := a]> st).
Proof.
  intros Hr [tail ->]. exists (<[r - length st0 := a]> tail).
  apply insert_app_r_alt. exact Hr.
Qed.

Lemma extends_lookup (st0 st : store) (p : ref) (a : ndarray) :
  extends st0 st -> st0 !! p = Some a -> st !! p = Some a.
Proof. intros [tail ->] H. apply lookup_app_l_Some. exact H. Qed.

(** *** Shapes *)

Lemma same_shape_refl (a : ndarray) : same_shape a a.
Proof. reflexivity. Qed.

Lemma same_shape_trans (a b c : ndarray) :
  same_shape a b -> same_shape b c -> same_shape a c.
Proof. unfold same_shape. intros -> ->. reflexivity. Qed.

(** Changing samples row by row, each row keeping its length. *)
Lemma same_shape_map (f : list float -> list float) (a : ndarray) :
  (forall row, length (f row) = length row) -> same_shape a (map f a).
Proof.
  intros Hf. unfold same_shape. rewrite map_map.
  apply map_ext. intros row. symmetry. apply Hf.
Qed.

Lemma same_shape_alter (f : list float -> list float) (k : nat)
  (a : ndarray) :
  (forall row, length (f row) = length row) -> same_shape a (alter f k a).
Proof.
  intros Hf. unfold same_shape. apply list_eq. intros i.
  rewrite !list_lookup_fmap.
  destruct (decide (i = k)) as [->|Hne].
  - rewrite list_lookup_alter_eq. destruct (a !! k); simpl; [|reflexivity].
    f_equal. symmetry. apply Hf.
  - rewrite list_lookup_alter_ne by congruence. reflexivity.
Qed.

Lemma same_shape_insert (k : nat) (row values : list float) (a : ndarray) :
  a !! k = Some row -> length values = length row ->
  same_shape a (<[k := values]> a).
Proof.
  intros Hk Hlen. unfold same_shape. apply list_eq. intros i.
  rewrite !list_lookup_fmap.
  destruct (decide (i = k)) as [->|Hne].
  - rewrite list_lookup_insert_eq by (apply lookup_lt_Some in Hk; exact Hk).
    rewrite Hk. simpl. f_equal. symmetry. exact Hlen.
  - rewrite list_lookup_insert_ne by congruence. reflexivity.
Qed.

Lemma setitem_cols_before_shape (stop : Z) (v : float) (a : ndarray) :
  same_shape a (setitem_cols_before stop v a).
Proof.
  apply same_shape_map. intros row.
  rewrite length_app, length_replicate, length_drop.
  unfold slice_stop. destruct (Z.ltb_spec stop 0); lia.
Qed.

Lemma setitem_cols_from_shape (start : Z) (v : float) (a : ndarray) :
  same_shape a (setitem_cols_from start v a).
Proof.
  apply same_shape_map. intros row.
  rewrite length_app, length_replicate, length_take.
  unfold slice_start. destruct (Z.ltb_spec start 0); lia.
Qed.

Lemma setitem_row_shape (i : Z) (v : float) (a a' : ndarray) :
  setitem_row i v a = Ok a' -> same_shape a a'.
Proof.
  unfold setitem_row. destruct (index i (length a)) as [k|e]; simpl;
    intros H; [|discriminate]. injection H as <-.
  apply same_shape_alter. intros row. apply length_map.
Qed.

Lemma setitem_row_values_shape (i : Z) (values : list float)
  (a a' : ndarray) :
  setitem_row_values i values a = Ok a' -> same_shape a a'.
Proof.
  unfold setitem_row_values.
  destruct (index i (length a)) as [k|e]; simpl; [|discriminate].
  destruct (a !! k) as [row|] eqn:Hk; [|discriminate].
  destruct (Nat.eqb_spec (length values) (length row)) as [Hlen|_];
    [|discriminate].
  intros H. injection H as <-.
  apply (same_shape_insert k row values a Hk Hlen).
Qed.

(** The ramp of the time-variant mute changes samples in place. *)
Lemma ramp_trace_length (s e : Z) (trace trace' : list float) :
  Mute.ramp_trace s e trace = Ok trace' -> length trace' = length trace.
Proof.
  unfold Mute.ramp_trace. generalize (range s e). intros idxs.
  revert trace. induction idxs as [|i idxs IH]; simpl; intros trace H.
  - injection H as <-. reflexivity.
  - destruct (index i (length trace)) as [k|err]; simpl in H; [|discriminate].
    rewrite (IH _ H). apply length_alter.
Qed.

Lemma mapM_ramp_shape (s e : Z) (a a' : ndarray) :
  mapM (Mute.ramp_trace s e) a = Ok a' -> same_shape a a'.
Proof.
  unfold same_shape. revert a'.
  induction a as [|row a IH]; simpl; intros a' H.
  - injection H as <-. reflexivity.
  - destruct (Mute.ramp_trace s e row) as [row'|err] eqn:Hrow; simpl in H;
      [|discriminate].
    destruct (mapM (Mute.ramp_trace s e) a) as [rest|err]; simpl in H;
      [|discriminate].
    injection H as <-. simpl. f_equal.
    + symmetry. apply (ramp_trace_length s e row row' Hrow).
    + apply IH. reflexivity.
Qed.

(** *** Output arrays *)

Lemma owns_alloc (st0 st : store) (a b : ndarray) :
  extends st0 st -> same_shape a b -> owns st0 a (length st) (st ++ [b]).
Proof.
  intros He Hs. split; [apply extends_alloc; exact He|]. split.
  - apply extends_length in He. rewrite length_app. simpl. lia.
  - exists b. split; [|exact Hs].
    rewrite lookup_app_r by lia. rewrite Nat.sub_diag. reflexivity.
Qed.

Lemma owns_insert (st0 st : store) (a b : ndarray) (out : ref) :
  owns st0 a out st -> same_shape a b -> owns st0 a out (<[out := b]> st).
Proof.
  intros (He & Hr & _) Hs. split; [apply extends_insert; [lia|exact He]|].
  split; [rewrite length_insert; exact Hr|].
  exists b. split; [|exact Hs]. apply list_lookup_insert_eq. lia.
Qed.

(** An in-place update of the output array that keeps its shape keeps
    it an output array, also when the update raises. *)
Lemma wp_update_owned (st0 st : store) (a : ndarray) (out : ref)
  (f : ndarray -> Result ndarray) :
  (forall b b', f b = Ok b' -> same_shape b b') ->
  owns st0 a out st ->
  wp (update out f) (fun _ st' => owns st0 a out st') st.
Proof.
  intros Hf Hown. apply wp_update.
  - intros b b' Hb Hfb. apply owns_insert; [exact Hown|].
    destruct Hown as (_ & _ & b0 & Hb0 & Hs).
    rewrite Hb in Hb0. injection Hb0 as <-.
    apply (same_shape_trans a b b' Hs), (Hf b b' Hfb).
  - intros _. exact Hown.
Qed.

Lemma well_behaved_raise (st0 st : store) (data : ref) (e : exn) :
  extends st0 st -> well_behaved st0 data (Raise e) st.
Proof. intros H. split; [exact H|]. intros out Hout. discriminate Hout. Qed.

Lemma well_behaved_owned (st0 st : store) (data : ref) (a : ndarray)
  (out : ref) :
  st0 !! data = Some a -> owns st0 a out st ->
  well_behaved st0 data (Ok out) st.
Proof.
  intros Ha Hown. split; [apply Hown|].
  intros out' Hout. injection Hout as <-. exists a. split; assumption.
Qed.

Lemma functional_operation_intro (data : ref) (c : M ref) :
  (forall st0, wp c (well_behaved st0 data) st0) -> functional_operation c.
Proof.
  intros H. split; intros st; specialize (H st); unfold wp in *;
    destruct (c st) as [r st']; destruct H as [He Hr].
  - intros p a. apply extends_lookup. exact He.
  - intros out Hout. destruct (Hr out Hout) as (a & _ & _ & Hlt & _). split.
    + apply lookup_ge_None. lia.
    + apply lookup_lt_is_Some. lia.
Qed.

Lemma keeps_shape_intro (data : ref) (c : M ref) :
  (forall st0, wp c (well_behaved st0 data) st0) -> keeps_shape data c.
Proof.
  intros H st. specialize (H st). unfold wp in *.
  destruct (c st) as [r st']. destruct H as [He Hr].
  intros out Hout.
  destruct (Hr out Hout) as (a & Ha & _ & _ & b & Hb & Hs).
  exists a, b. split; [exact Ha|]. split; [exact Hb|exact Hs].
Qed.

(** [np.copy(data)] and [np.zeros_like(data)] at the start of an
    operation return an output array for the contents of [data], or
    raise. *)
Lemma wp_copy (st0 : store) (data : ref) post :
  (forall a out st', st0 !! data = Some a -> owns st0 a out st' ->
     post (Ok out) st') ->
  (forall e, post (Raise e) st0) ->
  wp (copy data) post st0.
Proof.
  intros Hok Hraise. unfold copy. apply wp_bind, wp_load.
  - intros a Ha. apply wp_alloc, (Hok a); [exact Ha|].
    apply owns_alloc; [apply extends_refl|apply same_shape_refl].
  - intros e _. apply Hraise.
Qed.

Lemma wp_zeros_like (st0 : store) (data : ref) post :
  (forall a out st', st0 !! data = Some a -> owns st0 a out st' ->
     post (Ok out) st') ->
  (forall e, post (Raise e) st0) ->
  wp (zeros_like data) post st0.
Proof.
  intros Hok Hraise. unfold zeros_like. apply wp_bind, wp_load.
  - intros a Ha. apply wp_alloc, (Hok a); [exact Ha|].
    apply owns_alloc; [apply extends_refl|].
    apply same_shape_map. intros row. apply length_map.
  - intros e _. apply Hraise.
Qed.

(** The shape shared by every operation of the form
    [out = np.copy(data); ...in-place work on out...; return out]. *)
Lemma wp_then_return (st0 st : store) (data : ref) (a : ndarray)
  (out : ref) (work : M unit) :
  st0 !! data = Some a ->
  wp work (fun _ st' => owns st0 a out st') st ->
  wp (let! _ := work in ret out) (well_behaved st0 data) st.
Proof.
  intros Ha Hw. apply wp_bind. eapply wp_mono; [|exact Hw].
  intros [[]|e] st' H; simpl.
  - apply wp_ret, (well_behaved_owned st0 st' data a out Ha H).
  - apply well_behaved_raise, H.
Qed.

End StoreProofs.

(** ** Mutes, gains, annotation: effects on the store *)

Module OperationProofs.
Import Np NpOps Effect StoreProofs.

(** The ways an operation ends by raising. *)
Ltac raise_done :=
  intros; simpl;
  first [ apply well_behaved_raise;
          first [ apply extends_refl
                | match goal with H : owns _ _ _ _ |- _ => apply H end ]
        | assumption ].

(** A step that reads the arguments or the input array. *)
Ltac wp_read :=
  lazymatch goal with
  | |- wp (bindM (lift _) _) _ _ =>
      apply wp_lift_bind; [intros ? _|raise_done]
  | |- wp (bindM (load _) _) _ _ =>
      apply wp_bind, wp_load; [intros ? _|raise_done]
  end.

(** An operation that starts with [out = np.copy(data)] or
    [out = np.zeros_like(data)], works in place on [out] and returns
    it: what is left is the work in place. *)
Ltac wp_output st0 data :=
  apply wp_bind;
  first [apply (wp_copy st0 data) | apply (wp_zeros_like st0 data)];
  [ let a := fresh "a" in
    let out := fresh "out" in
    let st := fresh "st" in
    let Ha := fresh "Ha" in
    let Hown := fresh "Hown" in
    intros a out st Ha Hown;
    apply (wp_then_return st0 st data a out _ Ha)
  | raise_done ].

Lemma top_mute_spec (data : ref) (mute_time sample_interval : float)
  (st0 : store) :
  wp (Mute.top_mute data mute_time sample_interval)
     (well_behaved st0 data) st0.
Proof.
  unfold Mute.top_mute. do 2 wp_read. wp_output st0 data.
  apply wp_update_owned; [|assumption].
  intros b b' H. injection H as <-. apply setitem_cols_before_shape.
Qed.

Lemma bottom_mute_spec (data : ref) (mute_time sample_interval : float)
  (st0 : store) :
  wp (Mute.bottom_mute data mute_time sample_interval)
     (well_behaved st0 data) st0.
Proof.
  unfold Mute.bottom_mute. do 2 wp_read. wp_output st0 data.
  apply wp_update_owned; [|assumption].
  intros b b' H. injection H as <-. apply setitem_cols_from_shape.
Qed.

Lemma offset_mute_spec (data : ref) (offsets : list float)
  (mute_offset : float) (st0 : store) :
  wp (Mute.offset_mute data offsets mute_offset)
     (well_behaved st0 data) st0.
Proof.
  unfold Mute.offset_mute. wp_output st0 data.
  apply (wp_forM_ (owns st0 a out)); [assumption|].
  intros [i offset] st1 Hown1.
  destruct (mute_offset <? offset)%float.
  - apply wp_update_owned; [|assumption].
    intros b b'. apply setitem_row_shape.
  - apply wp_ret. assumption.
Qed.

Lemma time_variant_mute_spec (data : ref)
  (initial_time final_time sample_interval : float) (st0 : store) :
  wp (Mute.time_variant_mute data initial_time final_time sample_interval)
     (well_behaved st0 data) st0.
Proof.
  unfold Mute.time_variant_mute. do 5 wp_read. wp_output st0 data.
  apply wp_update_owned; [|assumption].
  intros b b'. apply mapM_ramp_shape.
Qed.

(** The loop shared by [agc_gain], [tvg_gain] and [wiener_deconvolution]:
    each pass reads a trace of the input and writes a row of the
    output. *)
Lemma wp_row_loop (st0 st : store) (data : ref) (a : ndarray) (out : ref)
  (idxs : list Z) (f : list float -> Result (list float)) :
  owns st0 a out st ->
  wp (forM_ idxs
        (fun i =>
           let! a := load data in
           let! k := lift (index i (length a)) in
           match a !! k with
           | Some trace =>
               let! row := lift (f trace) in
               update out (setitem_row_values i row)
           | None => raise (IndexError "index out of bounds")
           end))
     (fun _ st' => owns st0 a out st') st.
Proof.
  intros Hown. apply (wp_forM_ (owns st0 a out)); [exact Hown|].
  intros i st1 Hown1. do 2 wp_read.
  destruct (_ !! _).
  - wp_read. apply wp_update_owned; [|assumption].
    intros b b'. apply setitem_row_values_shape.
  - apply wp_raise. assumption.
Qed.

Lemma agc_gain_spec (data : ref) (window_size : Z) (st0 : store) :
  wp (Gains.agc_gain data window_size) (well_behaved st0 data) st0.
Proof.
  unfold Gains.agc_gain. wp_read. wp_output st0 data.
  apply wp_row_loop. assumption.
Qed.

Lemma tvg_gain_spec (np_power : float -> float -> float) (data : ref)
  (time_gradient : float) (st0 : store) :
  wp (Gains.tvg_gain np_power data time_gradient)
     (well_behaved st0 data) st0.
Proof.
  unfold Gains.tvg_gain. wp_read. wp_output st0 data.
  apply wp_row_loop. assumption.
Qed.

Lemma constant_gain_spec (data : ref) (gain_factor : float) (st0 : store) :
  wp (Gains.constant_gain data gain_factor) (well_behaved st0 data) st0.
Proof.
  unfold Gains.constant_gain.
  apply wp_bind, wp_load; [intros a Ha|raise_done].
  apply wp_bind, wp_alloc, wp_ret.
  apply (well_behaved_owned st0 _ data a _ Ha).
  apply owns_alloc; [apply extends_refl|].
  apply same_shape_map. intros row. apply length_map.
Qed.

Lemma annotate_traces_spec (data : ref) (flagged_indices : list Z)
  (st0 : store) :
  wp (TraceQC.annotate_traces data flagged_indices)
     (well_behaved st0 data) st0.
Proof.
  unfold TraceQC.annotate_traces. wp_output st0 data.
  apply (wp_forM_ (owns st0 a out)); [assumption|].
  intros idx st1 Hown1. apply wp_update_owned; [|assumption].
  intros b b'. apply setitem_row_shape.
Qed.

(** The convolution is laid out on the rows and samples of its first
    argument. *)
Lemma convolve2d_shape (in1 in2 : ndarray) :
  same_shape in1
    (Arr.convolve2d_same_wrap 0%float PrimFloat.add PrimFloat.mul in1 in2).
Proof.
  unfold same_shape, Arr.convolve2d_same_wrap. apply list_eq. intros i.
  rewrite !list_lookup_fmap, list_lookup_imap.
  destruct (in1 !! i); simpl; [|reflexivity].
  rewrite length_imap. reflexivity.
Qed.

Lemma fk_filter_spec (np_exp : float -> float) (signal_data : ref)
  (sample_rate : float) (filter_order : Z) (st0 : store) :
  wp (MatrixOps.fk_filter np_exp signal_data sample_rate filter_order)
     (well_behaved st0 signal_data) st0.
Proof.
  unfold MatrixOps.fk_filter.
  apply wp_bind, wp_load; [intros a Ha|raise_done].
  apply wp_bind, wp_alloc, wp_ret.
  apply (well_behaved_owned st0 _ signal_data a _ Ha).
  apply owns_alloc; [apply extends_refl|].
  unfold Arr.fk_filter_values. apply convolve2d_shape.
Qed.

Lemma wiener_deconvolution_spec
  (signal_wiener : list float -> Z -> float -> Result (list float))
  (seismic_data : ref) (window_size : Z) (noise_power : float)
  (st0 : store) :
  wp (MatrixOps.wiener_deconvolution signal_wiener seismic_data
        window_size noise_power)
     (well_behaved st0 seismic_data) st0.
Proof.
  unfold MatrixOps.wiener_deconvolution.
  apply wp_bind, (wp_zeros_like st0 seismic_data); [|raise_done].
  intros a out st1 Ha Hown. wp_read.
  apply (wp_then_return st0 st1 seismic_data a out _ Ha).
  apply wp_row_loop. assumption.
Qed.

(** Every operation above keeps the shape of its input: the array
    returned has as many traces and as many samples per trace. *)
Lemma operations_keep_shape :
  (forall data mute_time sample_interval,
     keeps_shape data (Mute.top_mute data mute_time sample_interval))
  /\ (forall data mute_time sample_interval,
        keeps_shape data (Mute.bottom_mute data mute_time sample_interval))
  /\ (forall data offsets mute_offset,
        keeps_shape data (Mute.offset_mute data offsets mute_offset))
  /\ (forall data initial_time final_time sample_interval,
        keeps_shape data
          (Mute.time_variant_mute data initial_time final_time
             sample_interval))
  /\ (forall data window_size,
        keeps_shape data (Gains.agc_gain data window_size))
  /\ (forall np_power data time_gradient,
        keeps_shape data (Gains.tvg_gain np_power data time_gradient))
  /\ (forall data gain_factor,
        keeps_shape data (Gains.constant_gain data gain_factor))
  /\ (forall data flagged_indices,
        keeps_shape data (TraceQC.annotate_traces data flagged_indices))
  /\ (forall np_exp signal_data sample_rate filter_order,
        keeps_shape signal_data
          (MatrixOps.fk_filter np_exp signal_data sample_rate filter_order))
  /\ (forall signal_wiener seismic_data window_size noise_power,
        keeps_shape seismic_data
          (MatrixOps.wiener_deconvolution signal_wiener seismic_data
             window_size noise_power)).
Proof.
  repeat apply conj; intros; apply keeps_shape_intro; intros st0.
  - apply top_mute_spec.
  - apply bottom_mute_spec.
  - apply offset_mute_spec.
  - apply time_variant_mute_spec.
  - apply agc_gain_spec.
  - apply tvg_gain_spec.
  - apply constant_gain_spec.
  - apply annotate_traces_spec.
  - apply fk_filter_spec.
  - apply wiener_deconvolution_spec.
Qed.

End OperationProofs.

(** ** The polygon mute *)

Module PolygonProofs.
Import Np NpOps Effect StoreProofs OperationProofs.

Section Polygon.
Variable contains_point : list (float * float) -> Z * Z -> bool.

Lemma apply_polygon_mute_unchanged (self : Mute.Mute) :
  leaves_inputs_unchanged (Mute.apply_polygon_mute contains_point self).
Proof.
  intros st. unfold Mute.apply_polygon_mute.
  destruct (Mute.mute_polygon self) as [polygon|],
           (Mute.data self) as [d|];
    try (apply wp_ret; intros p a H; exact H).
  apply wp_bind, wp_load.
  - intros a _. apply wp_bind, wp_alloc, wp_ret. intros p b H.
    apply lookup_app_l_Some. exact H.
  - intros e _ p b H. exact H.
Qed.

Lemma apply_polygon_mute_fresh (polygon : list (float * float)) (d : ref) :
  returns_fresh_array
    (Mute.apply_polygon_mute contains_point
       {| Mute.mute_polygon := Some polygon; Mute.data := Some d |}).
Proof.
  intros st. unfold Mute.apply_polygon_mute. simpl.
  apply wp_bind, wp_load.
  - intros a _. apply wp_bind, wp_alloc, wp_ret.
    intros o Ho. injection Ho as <-.
    exists (length st). split; [reflexivity|]. split.
    + apply lookup_ge_None. lia.
    + apply lookup_lt_is_Some. rewrite length_app. simpl. lia.
  - intros e _ o Ho. discriminate Ho.
Qed.

(** With no polygon, or no data, the operation returns what [self.data]
    holds and allocates nothing. *)
Lemma apply_polygon_mute_alias (self : Mute.Mute) (st : store) :
  Mute.mute_polygon self = None \/ Mute.data self = None ->
  Mute.apply_polygon_mute contains_point self st = (Ok (Mute.data self), st).
Proof.
  unfold Mute.apply_polygon_mute.
  destruct (Mute.mute_polygon self), (Mute.data self);
    intros [H|H]; try discriminate H; reflexivity.
Qed.

End Polygon.

End PolygonProofs.

(** ** C8 and C4 *)

Module MuteProofs.
Import Np NpOps Effect StoreProofs OperationProofs PolygonProofs.




(** *** The boundary of the top mute *)

Lemma setitem_cols_before_zeroed (k : Z) (a : ndarray) :
  (0 <= k)%Z -> zeroed_before (Z.to_nat k) a (setitem_cols_before k 0 a).
Proof.
  intros Hk. unfold zeroed_before, setitem_cols_before.
  split; [apply length_map|].
  intros t trace Ht. eexists. split; [|split].
  - rewrite list_lookup_fmap, Ht. reflexivity.
  - rewrite length_app, length_replicate, length_drop.
    unfold slice_stop. destruct (Z.ltb_spec k 0); lia.
  - intros j.
    assert (Hs : slice_stop k (length trace)
                 = Nat.min (Z.to_nat k) (length trace)).
    { unfold slice_stop. destruct (Z.ltb_spec k 0); [lia|reflexivity]. }
    rewrite Hs. split.
    + intros Hj Hlen. rewrite lookup_app_l.
      * apply lookup_replicate_2. lia.
      * rewrite length_replicate. lia.
    + intros Hj.
      destruct (Nat.le_gt_cases (Z.to_nat k) (length trace)) as [Hle|Hgt].
      * rewrite Nat.min_l by exact Hle.
        rewrite lookup_app_r by (rewrite length_replicate; exact Hj).
        rewrite length_replicate, lookup_drop. f_equal. lia.
      * rewrite Nat.min_r by lia.
        rewrite (lookup_ge_None_2 trace j) by lia.
        apply lookup_ge_None_2.
        rewrite length_app, length_replicate, length_drop. lia.
Qed.

(** The run of [top_mute] on a store that holds the data. *)
Lemma top_mute_run (st : store) (data : ref) (a : ndarray)
  (mute_time sample_interval q : float) (k : Z) :
  st !! data = Some a ->
  truediv mute_time sample_interval = Ok q ->
  int_of_float q = Ok k ->
  Mute.top_mute data mute_time sample_interval st
  = (Ok (length st), st ++ [setitem_cols_before k 0 a]).
Proof.
  intros Hdata Hq Hk.
  unfold Mute.top_mute, bindM, lift, copy, load, alloc, update, ret, bindM.
  rewrite Hq, Hk, Hdata.
  rewrite lookup_app_r by lia. rewrite Nat.sub_diag. simpl.
  rewrite insert_app_r_alt by lia. rewrite Nat.sub_diag. reflexivity.
Qed.

(** C4. The top mute zeroes exactly the samples before the mute index
    [int(mute_time / sample_interval)], the same for every trace, in a new
    matrix: with a mute time of 0.1 s at a sample interval of 0.001 s the
    index is 100, so samples 0 to 99 of every trace are zero and every
    sample from 100 on is the input sample. *)
Theorem top_mute_boundary :
  (forall (st : store) (data : ref) (a : ndarray)
          (mute_time sample_interval q : float) (mute_sample : Z),
     st !! data = Some a ->
     truediv mute_time sample_interval = Ok q ->
     int_of_float q = Ok mute_sample ->
     (0 <= mute_sample)%Z ->
     exists muted,
       Mute.top_mute data mute_time sample_interval st
       = (Ok (length st), st ++ [muted])
       /\ zeroed_before (Z.to_nat mute_sample) a muted)
  /\ (forall (st : store) (data : ref) (a : ndarray),
        st !! data = Some a ->
        exists muted,
          Mute.top_mute data Mute.seconds_0_1 Mute.seconds_0_001 st
          = (Ok (length st), st ++ [muted])
          /\ zeroed_before 100 a muted).
Proof.
  assert (Hgen : forall (st : store) (data : ref) (a : ndarray)
                   (mute_time sample_interval q : float) (mute_sample : Z),
             st !! data = Some a ->
             truediv mute_time sample_interval = Ok q ->
             int_of_float q = Ok mute_sample ->
             (0 <= mute_sample)%Z ->
             exists muted,
               Mute.top_mute data mute_time sample_interval st
               = (Ok (length st), st ++ [muted])
               /\ zeroed_before (Z.to_nat mute_sample) a muted).
  { intros st data a mt si q k Hdata Hq Hk Hpos.
    exists (setitem_cols_before k 0 a). split.
    - apply (top_mute_run st data a mt si q k Hdata Hq Hk).
    - apply setitem_cols_before_zeroed. exact Hpos. }
  split; [exact Hgen|].
  intros st data a Hdata.
  apply (Hgen st data a _ _ 100%float 100%Z Hdata);
    [vm_compute; reflexivity|vm_compute; reflexivity|lia].
Qed.

(** A mute time of two sample intervals on two traces of three samples:
    the first two samples of each are zeroed, the third is kept. *)
Lemma top_mute_boundary_witness :
  exists muted,
    Mute.top_mute 0%nat Mute.seconds_0_002 Mute.seconds_0_001
      Mute.two_trace_store
    = (Ok 1%nat, Mute.two_trace_store ++ [muted])
    /\ zeroed_before 2 [ [1; 2; 3]; [4; 5; 6] ]%float muted.
Proof.
  destruct top_mute_boundary as [Hgen _].
  apply (Hgen Mute.two_trace_store 0%nat _ _ _ 2%float 2%Z);
    [reflexivity|vm_compute; reflexivity|vm_compute; reflexivity|lia].
Defined.

End MuteProofs.

(** ** Exact arithmetic: linear systems, deconvolution, wavelets *)

Module ExactProofs.
Import Exact.
Local Open Scope R_scope.

(** *** Sums and products with zero *)

Lemma sum_map_zero {A} (f : A -> R) (l : list A) :
  (forall x, f x = 0) -> sum (map f l) = 0.
Proof.
  intros Hf. unfold sum, Arr.sum.
  induction l as [|x l IH]; simpl; [reflexivity|].
  rewrite Hf, IH. lra.
Qed.

Lemma dot_zeros_r (row : vector) (n : nat) : dot row (zeros n) = 0.
Proof.
  unfold dot, Arr.dot, Arr.sum, zeros. revert n.
  induction row as [|x row IH]; intros [|n]; simpl; try reflexivity.
  rewrite IH. lra.
Qed.

Lemma mat_vec_zeros (A : matrix) (n : nat) :
  mat_vec A (zeros n) = zeros (length A).
Proof.
  unfold mat_vec, zeros. induction A as [|row A IH]; simpl; [reflexivity|].
  rewrite IH. f_equal. apply dot_zeros_r.
Qed.

Lemma nth0_zeros (n : nat) (i : Z) : Arr.nth0 0 (zeros n) i = 0.
Proof.
  unfold Arr.nth0, zeros. destruct (i <? 0)%Z; [reflexivity|].
  destruct (Nat.lt_ge_cases (Z.to_nat i) n) as [Hlt|Hge].
  - rewrite nth_lookup, lookup_replicate_2 by exact Hlt. reflexivity.
  - apply nth_overflow. rewrite length_replicate. exact Hge.
Qed.

Lemma convolve_at_zeros (a : vector) (n : nat) (k : Z) :
  Arr.convolve_at 0 Rplus Rmult a (zeros n) k = 0.
Proof.
  unfold Arr.convolve_at. apply sum_map_zero.
  intros j. rewrite nth0_zeros. lra.
Qed.

Lemma map_zero {A} (f : A -> R) (l : list A) :
  (forall x, f x = 0) -> map f l = zeros (length l).
Proof.
  intros Hf. unfold zeros.
  induction l as [|x l IH]; simpl; [reflexivity|].
  rewrite Hf, IH. reflexivity.
Qed.

(** Convolving with a filter of zeros gives zeros, as many as the longer
    of the two arrays has samples. *)
Lemma convolve_same_zeros (a : vector) (n : nat) :
  a <> [] -> (0 < n)%nat ->
  convolve_same a (zeros n) = Ok (zeros (Nat.max (length a) n)).
Proof.
  intros Ha Hn. unfold convolve_same, Arr.convolve_same.
  destruct a as [|x a]; [contradiction|].
  destruct n as [|n]; [lia|].
  unfold zeros at 1. cbn [replicate].
  change (0 :: replicate n 0) with (zeros (S n)).
  f_equal.
  rewrite (map_zero _ _ (fun k => convolve_at_zeros (x :: a) (S n) _)).
  rewrite PyFacts.range_length. f_equal.
  unfold zeros. rewrite length_replicate. lia.
Qed.

(** *** The contract of [np.linalg.solve] *)

Lemma linalg_solve_unique (A : matrix) (b x : vector) :
  nonsingular A -> length b = length A -> solves A b x ->
  linalg_solve A b = Ok x.
Proof.
  intros Hns Hb Hx. unfold linalg_solve.
  destruct (excluded_middle_informative _) as [_|Hshape];
    [|destruct Hshape; split; [apply Hns|exact Hb]].
  destruct (excluded_middle_informative _) as [_|Hsing];
    [|contradiction].
  f_equal.
  destruct Hns as [_ Huniq]. destruct (Huniq b Hb) as (x0 & _ & Hx0).
  rewrite (Hx0 x Hx). apply Hx0.
  apply epsilon_spec. exists x. exact Hx.
Qed.

Lemma linalg_solve_shape (A : matrix) (b : vector) :
  length b <> length A -> exists msg, linalg_solve A b = Raise (ValueError msg).
Proof.
  intros Hb. unfold linalg_solve.
  destruct (excluded_middle_informative _) as [[_ H]|_];
    [contradiction|eexists; reflexivity].
Qed.

Lemma toeplitz_length (c : vector) : length (toeplitz c) = length c.
Proof. unfold toeplitz. rewrite length_map, length_seq. reflexivity. Qed.

Lemma autocorrelation_length (trace : vector) :
  length (Arr.autocorrelation 0 Rplus Rmult trace) = length trace.
Proof.
  unfold Arr.autocorrelation. rewrite length_map, length_seq. reflexivity.
Qed.

Lemma autocorrelation_Ok (trace : vector) :
  trace <> [] ->
  autocorrelation trace = Ok (Arr.autocorrelation 0 Rplus Rmult trace).
Proof. destruct trace; [contradiction|reflexivity]. Qed.

(** *** Spiking deconvolution by trace autocorrelation *)


(** *** Small systems *)

(** Evaluation of the list structure of a concrete array expression,
    down to its real entries. *)
Ltac real_eval :=
  unfold Deconvolution.spiking_wavelet, Arr.autocorrelation, Arr.dot,
    Arr.sum, slice_stop, slice_start;
  simpl.

Lemma nonsingular_1x1 (a : R) : a <> 0 -> nonsingular [[a]].
Proof.
  intros Ha. split; [repeat constructor|].
  intros [|b1 [|? ?]] Hb; try discriminate Hb.
  exists [b1 / a]. split.
  - split; [reflexivity|].
    unfold mat_vec, dot, Arr.dot, Arr.sum. simpl. f_equal. field. exact Ha.
  - intros [|y1 [|? ?]] [Hlen Hy]; try discriminate Hlen.
    unfold mat_vec, dot, Arr.dot, Arr.sum in Hy. simpl in Hy.
    injection Hy as Hy. f_equal.
    apply (Rmult_eq_reg_l a); [|exact Ha]. field_simplify; [lra|exact Ha].
Qed.

Lemma nonsingular_2x2 (a b c d : R) :
  a * d - b * c <> 0 -> nonsingular [[a; b]; [c; d]].
Proof.
  intros Hdet. split; [repeat constructor|].
  intros [|b1 [|b2 [|? ?]]] Hb; try discriminate Hb.
  exists [(d * b1 - b * b2) / (a * d - b * c);
          (a * b2 - c * b1) / (a * d - b * c)].
  split.
  - split; [reflexivity|].
    unfold mat_vec, dot, Arr.dot, Arr.sum. simpl.
    f_equal; [|f_equal]; field; exact Hdet.
  - intros [|y1 [|y2 [|? ?]]] [Hlen Hy]; try discriminate Hlen.
    unfold mat_vec, dot, Arr.dot, Arr.sum in Hy. simpl in Hy.
    injection Hy as H1 H2. subst b1 b2.
    f_equal; [|f_equal]; field; exact Hdet.
Qed.



(** *** Peak normalisation *)

Lemma peak_nonneg (x : R) (xs : vector) : 0 <= peak x xs.
Proof.
  unfold peak. induction xs as [|y xs IH]; simpl.
  - apply Rabs_pos.
  - apply Rle_trans with (1 := IH). apply Rmax_r.
Qed.

Lemma peak_pos (x : R) (xs : vector) :
  Exists (fun y => y <> 0) (x :: xs) -> 0 < peak x xs.
Proof.
  unfold peak. induction xs as [|y xs IH]; simpl; intros H.
  - apply Rabs_pos_lt. inversion H as [? ? Hx|? ? Hx]; subst;
      [exact Hx|inversion Hx].
  - destruct (Req_dec y 0) as [->|Hy].
    + apply Rlt_le_trans with (2 := Rmax_r _ _). apply IH.
      inversion H as [? ? Hx|? ? Hx]; subst; [left; exact Hx|].
      inversion Hx as [? ? Hz|? ? Hz]; subst; [contradiction|].
      right. exact Hz.
    + apply Rlt_le_trans with (2 := Rmax_l _ _). apply Rabs_pos_lt, Hy.
Qed.

Lemma peak_scale (m x : R) (xs : vector) :
  0 < m ->
  peak (x / m) (map (fun y => y / m) xs) = peak x xs / m.
Proof.
  intros Hm. unfold peak.
  assert (Habs : forall y, Rabs (y / m) = / m * Rabs y).
  { intros y. unfold Rdiv. rewrite Rabs_mult, Rabs_inv.
    rewrite (Rabs_right m) by lra. apply Rmult_comm. }
  induction xs as [|y xs IH]; simpl.
  - rewrite Habs. unfold Rdiv. apply Rmult_comm.
  - rewrite IH, Habs. unfold Rdiv.
    rewrite (Rmult_comm _ (/ m)).
    rewrite RmaxRmult; [apply Rmult_comm|].
    left. apply Rinv_0_lt_compat, Hm.
Qed.

(** Dividing an array that is not identically zero by its peak gives an
    array of peak 1. *)
Lemma normalise_peak_unit (w : vector) :
  Exists (fun y => y <> 0) w ->
  exists w', normalise_peak w = Ok w' /\ max_abs w' = Ok 1.
Proof.
  intros H. destruct w as [|x xs]; [inversion H|].
  pose proof (peak_pos x xs H) as Hpos.
  unfold normalise_peak, max_abs. fold (peak x xs). cbn [bind].
  eexists. split; [reflexivity|].
  cbn [map]. fold (peak (x / peak x xs) (map (fun y => y / peak x xs) xs)).
  rewrite peak_scale by exact Hpos. f_equal. field. lra.
Qed.

(** The lag-0 autocorrelation is the energy of the trace. *)
Lemma dot_self_pos (trace : vector) :
  Exists (fun y => y <> 0) trace -> 0 < dot trace trace.
Proof.
  unfold dot, Arr.dot, Arr.sum.
  assert (Hnn : forall l : vector, 0 <= foldr Rplus 0 (zip_with Rmult l l)).
  { induction l as [|y l IH]; simpl; [lra|]. nra. }
  induction trace as [|x trace IH]; intros H; [inversion H|].
  simpl. specialize (Hnn trace).
  inversion H as [? ? Hx|? ? Hx]; subst.
  - assert (0 < x * x) by nra. lra.
  - specialize (IH Hx). nra.
Qed.

(** *** Wavelet generators and estimators *)

(** Evaluation of a maximum of absolute values of concrete reals. *)
Ltac peak_eval :=
  unfold max_abs, peak; simpl;
  repeat (unfold Rabs; destruct (Rcase_abs _); try lra);
  repeat (unfold Rmax; destruct (Rle_dec _ _); try lra).

Lemma int_of_R_IZR (x : R) (z : Z) : (0 <= z)%Z -> x = IZR z -> int_of_R x = z.
Proof.
  intros Hz ->. unfold int_of_R.
  destruct (Rle_dec 0 (IZR z)) as [_|Hneg].
  - symmetry. apply Int_part_spec. lra.
  - destruct Hneg. apply IZR_le. exact Hz.
Qed.

(** The statistical estimate of the wavelet of [bump] with three
    samples: the system is [[19; 16]; [16; 19]] x = [16; 10]. *)
Lemma wavelet_statistically_bump :
  Wavelets.wavelet_statistically Wavelets.bump 3
  = Ok [1; - (48 / 35); - (- (22 / 35))].
Proof.
  unfold Wavelets.wavelet_statistically, Wavelets.bump.
  rewrite autocorrelation_Ok by discriminate. cbn [bind].
  real_eval.
  rewrite (linalg_solve_unique _ _ [48 / 35; - (22 / 35)]).
  - reflexivity.
  - apply nonsingular_2x2. simpl. lra.
  - reflexivity.
  - split; [reflexivity|].
    unfold mat_vec, dot, Arr.dot, Arr.sum. simpl.
    f_equal; [|f_equal]; lra.
Qed.




(** *** The F-K filter on a constant matrix *)

Lemma sum_map_div (s : R) (l : vector) :
  sum (map (fun w => w / s) l) = sum l / s.
Proof.
  unfold sum, Arr.sum. induction l as [|x l IH]; simpl; [lra|].
  rewrite IH. lra.
Qed.

Lemma sum_map_mult_r (c : R) (l : vector) :
  sum (map (fun w => w * c) l) = sum l * c.
Proof.
  unfold sum, Arr.sum. induction l as [|x l IH]; simpl; [lra|].
  rewrite IH. lra.
Qed.

Lemma sum_pos (l : vector) :
  l <> [] -> Forall (fun x => 0 < x) l -> 0 < sum l.
Proof.
  unfold sum, Arr.sum. intros Hne H.
  induction H as [|x l Hx Hl IH]; [contradiction|]. simpl.
  destruct l as [|y l]; [simpl; lra|].
  specialize (IH ltac:(discriminate)). lra.
Qed.

Lemma sum2_map_div (s : R) (m : matrix) :
  Arr.sum2 0 Rplus (map (map (fun w => w / s)) m) = Arr.sum2 0 Rplus m / s.
Proof.
  unfold Arr.sum2. fold sum.
  induction m as [|row m IH]; simpl; [unfold sum, Arr.sum; simpl; lra|].
  unfold sum, Arr.sum in *. simpl. fold (Arr.sum 0 Rplus) in *.
  fold sum in *. rewrite sum_map_div.
  unfold sum, Arr.sum in *. simpl in *. rewrite IH. lra.
Qed.

Lemma gauss_grid_sum_pos (filter_order : Z) :
  (1 <= filter_order)%Z -> 0 < Arr.sum2 0 Rplus (FIR_Filters.gauss_grid filter_order).
Proof.
  intros Hfo. unfold Arr.sum2, FIR_Filters.gauss_grid. fold sum.
  assert (Hne : range ((- filter_order) / 2) (filter_order / 2) <> []).
  { intros H. apply (f_equal length) in H.
    rewrite PyFacts.range_length in H. simpl in H.
    assert (- filter_order / 2 < filter_order / 2)%Z.
    { apply Z.lt_le_trans with 0%Z.
      - apply Z.div_lt_upper_bound; lia.
      - apply Z.div_pos; lia. }
    lia. }
  apply sum_pos.
  - destruct (range _ _); [contradiction|simpl; discriminate].
  - rewrite !Forall_map. apply Forall_forall. intros yv _.
    apply sum_pos.
    + destruct (range _ _); [contradiction|simpl; discriminate].
    + rewrite Forall_map. apply Forall_forall. intros xv _.
      apply exp_pos.
Qed.

(** The window is normalised: its entries sum to one. *)
Lemma fk_window_sum (filter_order : Z) :
  (1 <= filter_order)%Z ->
  Arr.sum2 0 Rplus
    (Arr.fk_window 0 Rplus FIR_Filters.gauss Rdiv filter_order) = 1.
Proof.
  intros Hfo. unfold Arr.fk_window. fold (FIR_Filters.gauss_grid filter_order).
  pose proof (gauss_grid_sum_pos filter_order Hfo) as Hpos.
  rewrite (sum2_map_div (Arr.sum2 0 Rplus (FIR_Filters.gauss_grid filter_order))).
  field. lra.
Qed.

Lemma nth2_constant (nr nc : nat) (c : R) (i j : Z) :
  (0 <= i < Z.of_nat nr)%Z -> (0 <= j < Z.of_nat nc)%Z ->
  Arr.nth2 0 (FIR_Filters.constant_matrix nr nc c) i j = c.
Proof.
  intros Hi Hj. unfold Arr.nth2, FIR_Filters.constant_matrix.
  rewrite (nth_lookup (replicate nr _)), lookup_replicate_2 by lia.
  simpl. rewrite nth_lookup, lookup_replicate_2 by lia. reflexivity.
Qed.

Lemma sum_imap_ext (f : nat -> R -> R) (g : R -> R) (l : vector) :
  (forall i x, f i x = g x) -> sum (imap f l) = sum (map g l).
Proof.
  intros H. f_equal.
  transitivity (imap (const g) l); [|exact (imap_const g l)].
  apply imap_ext. intros i x _. apply H.
Qed.

Lemma sum_imap_rows (f : nat -> vector -> R) (g : vector -> R) (m : matrix) :
  (forall j row, f j row = g row) -> sum (imap f m) = sum (map g m).
Proof.
  intros H. f_equal.
  transitivity (imap (const g) m); [|exact (imap_const g m)].
  apply imap_ext. intros i x _. apply H.
Qed.

Lemma imap_fixed {A} (f : nat -> A -> A) (l : list A) :
  (forall i x, l !! i = Some x -> f i x = x) -> imap f l = l.
Proof.
  intros H. apply list_eq. intros i. rewrite list_lookup_imap.
  destruct (l !! i) as [x|] eqn:E; simpl; [|reflexivity].
  f_equal. apply H, E.
Qed.

(** Convolving a constant matrix with any kernel multiplies the constant
    by the sum of the kernel: with wrap-around every product of the sum
    at every position reads the same constant. *)
Lemma convolve2d_constant (nr nc : nat) (c : R) (kernel : matrix) :
  Arr.sum2 0 Rplus kernel = 1 ->
  Arr.convolve2d_same_wrap 0 Rplus Rmult
    (FIR_Filters.constant_matrix nr nc c) kernel
  = FIR_Filters.constant_matrix nr nc c.
Proof.
  intros Hsum. unfold Arr.convolve2d_same_wrap.
  apply imap_fixed. intros m row Hrow.
  unfold FIR_Filters.constant_matrix in Hrow.
  apply lookup_replicate in Hrow. destruct Hrow as [-> Hm].
  apply imap_fixed. intros n x Hx.
  apply lookup_replicate in Hx. destruct Hx as [-> Hn].
  fold (FIR_Filters.constant_matrix nr nc c).
  assert (Hnc : NpOps.ncols (FIR_Filters.constant_matrix nr nc c) = nc).
  { unfold FIR_Filters.constant_matrix.
    destruct nr; [lia|simpl; apply length_replicate]. }
  rewrite Hnc.
  assert (Hlen : length (FIR_Filters.constant_matrix nr nc c) = nr).
  { unfold FIR_Filters.constant_matrix. apply length_replicate. }
  rewrite Hlen.
  fold sum.
  rewrite (sum_imap_rows _ (fun krow => sum krow * c)).
  - unfold Arr.sum2 in Hsum.
    change (sum (map sum kernel) = 1) in Hsum.
    rewrite <- (map_map sum (fun s => s * c)).
    rewrite sum_map_mult_r, Hsum. lra.
  - intros j krow.
    rewrite (sum_imap_ext _ (fun w => w * c)).
    + apply sum_map_mult_r.
    + intros l w. rewrite nth2_constant; [reflexivity| |];
        apply Z.mod_pos_bound; lia.
Qed.



End ExactProofs.

(** ** The mutes, sample by sample *)

Module MuteBoundaries.
Import Np NpOps Effect StoreProofs OperationProofs.

Lemma slice_stop_le (k : Z) (n : nat) : slice_stop k n <= n.
Proof. unfold slice_stop. destruct (Z.ltb_spec k 0); lia. Qed.

Lemma slice_start_le (k : Z) (n : nat) : slice_start k n <= n.
Proof. unfold slice_start. destruct (Z.ltb_spec k 0); lia. Qed.

(** A row after [row[:b] = 0]. *)
Lemma cols_before_lookup (b : nat) (row : list float) (j : nat) :
  b <= length row ->
  (replicate b 0%float ++ drop b row) !! j
  = if (j <? b)%nat then Some 0%float else row !! j.
Proof.
  intros Hb. destruct (Nat.ltb_spec j b) as [Hj|Hj].
  - rewrite lookup_app_l by (rewrite length_replicate; exact Hj).
    apply lookup_replicate_2. exact Hj.
  - rewrite lookup_app_r by (rewrite length_replicate; exact Hj).
    rewrite length_replicate, lookup_drop. f_equal. lia.
Qed.

(** A row after [row[b:] = 0]. *)
Lemma cols_from_lookup (b : nat) (row : list float) (j : nat) :
  b <= length row ->
  (take b row ++ replicate (length row - b) 0%float) !! j
  = if (j <? b)%nat then row !! j
    else if (j <? length row)%nat then Some 0%float else None.
Proof.
  intros Hb.
  assert (Ht : length (take b row) = b) by (rewrite length_take; lia).
  destruct (Nat.ltb_spec j b) as [Hj|Hj].
  - rewrite lookup_app_l by (rewrite Ht; exact Hj).
    apply lookup_take_lt. exact Hj.
  - rewrite lookup_app_r by (rewrite Ht; exact Hj). rewrite Ht.
    destruct (Nat.ltb_spec j (length row)) as [Hl|Hl].
    + apply lookup_replicate_2. lia.
    + apply lookup_ge_None_2. rewrite length_replicate. lia.
Qed.

(** [a[:, :k] = 0] when the slice stops at [min K len] in every row. *)
Lemma setitem_cols_before_rows (k : Z) (K : nat) (a : ndarray) :
  Forall (fun row => slice_stop k (length row) = Nat.min K (length row)) a ->
  zeroed_before K a (setitem_cols_before k 0 a).
Proof.
  intros Hrows. unfold zeroed_before, setitem_cols_before.
  split; [apply length_map|].
  intros t trace Ht. eexists. split; [|split].
  - rewrite list_lookup_fmap, Ht. reflexivity.
  - rewrite length_app, length_replicate, length_drop.
    pose proof (slice_stop_le k (length trace)). lia.
  - intros j. rewrite cols_before_lookup by apply slice_stop_le.
    rewrite Forall_forall in Hrows.
    rewrite (Hrows trace) by (eapply list_elem_of_lookup_2; exact Ht).
    split.
    + intros Hj Hlen.
      destruct (Nat.ltb_spec j (Nat.min K (length trace))); [reflexivity|lia].
    + intros Hj.
      destruct (Nat.ltb_spec j (Nat.min K (length trace))); [lia|reflexivity].
Qed.

(** [a[:, k:] = 0] when the slice starts at [min K len] in every row. *)
Lemma setitem_cols_from_rows (k : Z) (K : nat) (a : ndarray) :
  Forall (fun row => slice_start k (length row) = Nat.min K (length row)) a ->
  zeroed_from K a (setitem_cols_from k 0 a).
Proof.
  intros Hrows. unfold zeroed_from, setitem_cols_from.
  split; [apply length_map|].
  intros t trace Ht. eexists. split; [|split].
  - rewrite list_lookup_fmap, Ht. reflexivity.
  - rewrite length_app, length_replicate, length_take.
    pose proof (slice_start_le k (length trace)). lia.
  - intros j. rewrite cols_from_lookup by apply slice_start_le.
    rewrite Forall_forall in Hrows.
    rewrite (Hrows trace) by (eapply list_elem_of_lookup_2; exact Ht).
    split.
    + intros Hj.
      destruct (Nat.ltb_spec j (Nat.min K (length trace))) as [_|Hge];
        [reflexivity|].
      rewrite (lookup_ge_None_2 trace j) by lia.
      destruct (Nat.ltb_spec j (length trace)); [lia|reflexivity].
    + intros Hj Hlen.
      destruct (Nat.ltb_spec j (Nat.min K (length trace))); [lia|].
      destruct (Nat.ltb_spec j (length trace)); [reflexivity|lia].
Qed.

(** The run of [bottom_mute] on a store that holds the data. *)
Lemma bottom_mute_returns (st : store) (data : ref) (a : ndarray)
  (mute_time sample_interval q : float) (k : Z) :
  st !! data = Some a ->
  truediv mute_time sample_interval = Ok q ->
  int_of_float q = Ok k ->
  Mute.bottom_mute data mute_time sample_interval st
  = (Ok (length st), st ++ [setitem_cols_from k 0 a]).
Proof.
  intros Hdata Hq Hk.
  unfold Mute.bottom_mute, bindM, lift, copy, load, alloc, update, ret, bindM.
  rewrite Hq, Hk, Hdata.
  rewrite lookup_app_r by lia. rewrite Nat.sub_diag. simpl.
  rewrite insert_app_r_alt by lia. rewrite Nat.sub_diag. reflexivity.
Qed.

(** X1. The bottom mute zeroes exactly the samples from the mute index
    [int(mute_time / sample_interval)] on, the same for every trace, in
    a new matrix behind the caller's store; every sample before the
    index is the input sample. *)
Theorem bottom_mute_boundary (st : store) (data : ref) (a : ndarray)
  (mute_time sample_interval q : float) (mute_sample : Z) :
  st !! data = Some a ->
  truediv mute_time sample_interval = Ok q ->
  int_of_float q = Ok mute_sample ->
  (0 <= mute_sample)%Z ->
  exists muted,
    Mute.bottom_mute data mute_time sample_interval st
    = (Ok (length st), st ++ [muted])
    /\ zeroed_from (Z.to_nat mute_sample) a muted.
Proof.
  intros Hdata Hq Hk Hpos. eexists. split.
  - apply (bottom_mute_returns st data a _ _ q mute_sample Hdata Hq Hk).
  - apply setitem_cols_from_rows. apply Forall_forall. intros row _.
    unfold slice_start. destruct (Z.ltb_spec mute_sample 0); [lia|reflexivity].
Qed.

(** A mute time of two sample intervals on two traces of three samples:
    the first two samples of each are kept, the third is zeroed. *)
Lemma bottom_mute_boundary_witness :
  exists muted,
    Mute.bottom_mute 0%nat Mute.seconds_0_002 Mute.seconds_0_001
      Mute.two_trace_store
    = (Ok 1%nat, Mute.two_trace_store ++ [muted])
    /\ zeroed_from 2 [ [1; 2; 3]; [4; 5; 6] ]%float muted.
Proof.
  apply (bottom_mute_boundary Mute.two_trace_store 0%nat _ _ _ 2%float 2%Z);
    [reflexivity|vm_compute; reflexivity|vm_compute; reflexivity|lia].
Defined.

(** X2. A negative mute time is not refused: the mute index [k < 0]
    counts from the end of the trace, as a negative slice bound does. On
    traces of [n] samples the top mute zeroes all but the last [-k]
    samples, and the bottom mute zeroes the last [-k] samples. *)
Theorem mute_negative_time (st : store) (data : ref) (a : ndarray) (n : nat)
  (mute_time sample_interval q : float) (k : Z) :
  st !! data = Some a ->
  rectangular n a ->
  truediv mute_time sample_interval = Ok q ->
  int_of_float q = Ok k ->
  (k < 0)%Z ->
  (exists muted,
     Mute.top_mute data mute_time sample_interval st
     = (Ok (length st), st ++ [muted])
     /\ zeroed_before (n - Z.to_nat (- k)) a muted)
  /\ (exists muted,
        Mute.bottom_mute data mute_time sample_interval st
        = (Ok (length st), st ++ [muted])
        /\ zeroed_from (n - Z.to_nat (- k)) a muted).
Proof.
  intros Hdata Hrect Hq Hk Hneg. split; eexists; (split;
    [first [apply (MuteProofs.top_mute_run st data a _ _ q k Hdata Hq Hk)
           |apply (bottom_mute_returns st data a _ _ q k Hdata Hq Hk)]|]).
  - apply setitem_cols_before_rows.
    eapply Forall_impl; [exact Hrect|]. intros row Hrow. simpl in Hrow.
    unfold slice_stop. destruct (Z.ltb_spec k 0); lia.
  - apply setitem_cols_from_rows.
    eapply Forall_impl; [exact Hrect|]. intros row Hrow. simpl in Hrow.
    unfold slice_start. destruct (Z.ltb_spec k 0); lia.
Qed.

(** A mute time of minus one sample interval on two traces of three
    samples: the top mute keeps only the last sample, the bottom mute
    zeroes only the last sample. *)
Lemma mute_negative_time_witness :
  (exists muted,
     Mute.top_mute 0%nat (- Mute.seconds_0_001) Mute.seconds_0_001
       Mute.two_trace_store
     = (Ok 1%nat, Mute.two_trace_store ++ [muted])
     /\ zeroed_before 2 [ [1; 2; 3]; [4; 5; 6] ]%float muted)
  /\ (exists muted,
        Mute.bottom_mute 0%nat (- Mute.seconds_0_001) Mute.seconds_0_001
          Mute.two_trace_store
        = (Ok 1%nat, Mute.two_trace_store ++ [muted])
        /\ zeroed_from 2 [ [1; 2; 3]; [4; 5; 6] ]%float muted).
Proof.
  apply (mute_negative_time Mute.two_trace_store 0%nat _ 3 _ _
           (-1)%float (-1)%Z);
    [reflexivity
    |repeat constructor
    |vm_compute; reflexivity|vm_compute; reflexivity|lia].
Defined.


(** *** The offset mute *)

Lemma index_of_nat (i n : nat) : i < n -> index (Z.of_nat i) n = Ok i.
Proof.
  intros H. unfold index.
  destruct (Z.leb_spec 0 (Z.of_nat i)); [|lia].
  destruct (Z.ltb_spec (Z.of_nat i) (Z.of_nat n)); [|lia].
  simpl. rewrite Nat2Z.id. reflexivity.
Qed.

Lemma index_in_range (i : Z) (n : nat) :
  (0 <= i < Z.of_nat n)%Z -> index i n = Ok (Z.to_nat i).
Proof.
  intros H. unfold index.
  destruct (Z.leb_spec 0 i); [|lia].
  destruct (Z.ltb_spec i (Z.of_nat n)); [|lia]. reflexivity.
Qed.

Lemma index_past_end (i n : nat) :
  n <= i -> exists msg, index (Z.of_nat i) n = Raise (IndexError msg).
Proof.
  intros H. unfold index.
  destruct (Z.leb_spec 0 (Z.of_nat i)); [|lia].
  destruct (Z.ltb_spec (Z.of_nat i) (Z.of_nat n)); [lia|].
  destruct (Z.ltb_spec (Z.of_nat i) 0); [lia|].
  rewrite !andb_false_r. eexists. reflexivity.
Qed.

Lemma setitem_row_of_nat (i : nat) (v : float) (a : ndarray) :
  i < length a ->
  setitem_row (Z.of_nat i) v a = Ok (alter (map (fun _ => v)) i a).
Proof.
  intros H. unfold setitem_row. rewrite index_of_nat by exact H. reflexivity.
Qed.

Lemma setitem_row_past_end (i : nat) (v : float) (a : ndarray) :
  length a <= i ->
  exists msg, setitem_row (Z.of_nat i) v a = Raise (IndexError msg).
Proof.
  intros H. unfold setitem_row.
  destruct (index_past_end i (length a) H) as [msg ->]. exists msg. reflexivity.
Qed.

(** The loop of [offset_mute] over the offsets of the traces from [k]
    on, when each of them has a trace. *)
Lemma offset_loop_run (out : ref) (mute_offset : float)
  (offsets : list float) :
  forall (k : nat) (st : store) (b : ndarray),
    st !! out = Some b ->
    k + length offsets <= length b ->
    exists b',
      forM_ (imap (fun i offset => ((k + i)%nat, offset)) offsets)
        (fun '(i, offset) =>
           if (mute_offset <? offset)%float
           then update out (setitem_row (Z.of_nat i) 0)
           else ret tt) st
      = (Ok tt, <[out := b']> st)
      /\ length b' = length b
      /\ forall (t : nat) (row : list float),
           b !! t = Some row ->
           b' !! t
           = Some (match (if (k <=? t)%nat then offsets !! (t - k)
                          else None) with
                   | Some offset =>
                       if (mute_offset <? offset)%float
                       then map (fun _ => 0%float) row else row
                   | None => row
                   end).
Proof.
  induction offsets as [|o os IH]; intros k st b Hout Hlen.
  - exists b. split; [|split].
    + simpl. unfold ret. f_equal. symmetry. apply list_insert_id. exact Hout.
    + reflexivity.
    + intros t row Ht. rewrite Ht. f_equal.
      destruct (k <=? t)%nat; [rewrite lookup_nil|]; reflexivity.
  - simpl in Hlen. rewrite imap_cons.
    rewrite (imap_ext _ (fun i offset => ((S k + i)%nat, offset)))
      by (intros i x _; simpl; f_equal; lia).
    assert (Hout_lt : out < length st) by (eapply lookup_lt_Some; exact Hout).
    cbn [forM_]. cbn beta iota. rewrite Nat.add_0_r.
    destruct (mute_offset <? o)%float eqn:Hmute.
    + unfold bindM at 1. unfold update at 1. rewrite Hout.
      rewrite setitem_row_of_nat by lia.
      destruct (IH (S k) (<[out := alter (map (fun _ => 0%float)) k b]> st)
                  (alter (map (fun _ => 0%float)) k b)) as (b' & Hrun & Hl & Hrows).
      { apply list_lookup_insert_eq. exact Hout_lt. }
      { rewrite length_alter. lia. }
      exists b'. split; [|split].
      * rewrite Hrun, list_insert_insert_eq. reflexivity.
      * rewrite Hl. apply length_alter.
      * intros t row Ht.
        destruct (decide (t = k)) as [->|Hne].
        -- rewrite (Hrows k (map (fun _ => 0%float) row))
             by (rewrite list_lookup_alter_eq, Ht; reflexivity).
           destruct (Nat.leb_spec (S k) k); [lia|].
           rewrite Nat.leb_refl, Nat.sub_diag. simpl. rewrite Hmute.
           reflexivity.
        -- rewrite (Hrows t row)
             by (rewrite list_lookup_alter_ne by congruence; exact Ht).
           f_equal.
           destruct (Nat.leb_spec (S k) t), (Nat.leb_spec k t);
             try lia; [|reflexivity].
           replace (t - k) with (S (t - S k)) by lia. reflexivity.
    + unfold bindM at 1. unfold ret at 1.
      destruct (IH (S k) st b Hout ltac:(lia)) as (b' & Hrun & Hl & Hrows).
      exists b'. split; [exact Hrun|]. split; [exact Hl|].
      intros t row Ht. rewrite (Hrows t row Ht). f_equal.
      destruct (decide (t = k)) as [->|Hne].
      * destruct (Nat.leb_spec (S k) k); [lia|].
        rewrite Nat.leb_refl, Nat.sub_diag. simpl. rewrite Hmute.
        reflexivity.
      * destruct (Nat.leb_spec (S k) t), (Nat.leb_spec k t);
          try lia; [|reflexivity].
        replace (t - k) with (S (t - S k)) by lia. reflexivity.
Qed.

(** The same loop when a trace index that is muted has no trace. *)
Lemma offset_loop_raises (out : ref) (mute_offset : float)
  (offsets : list float) :
  forall (k : nat) (st : store) (b : ndarray),
    st !! out = Some b ->
    (exists i offset, offsets !! i = Some offset
                      /\ length b <= k + i
                      /\ (mute_offset <? offset)%float = true) ->
    exists msg st',
      forM_ (imap (fun i offset => ((k + i)%nat, offset)) offsets)
        (fun '(i, offset) =>
           if (mute_offset <? offset)%float
           then update out (setitem_row (Z.of_nat i) 0)
           else ret tt) st
      = (Raise (IndexError msg), st').
Proof.
  induction offsets as [|o os IH]; intros k st b Hout (i & offset & Hi & Hge & Hm).
  - rewrite lookup_nil in Hi. discriminate Hi.
  - rewrite imap_cons.
    rewrite (imap_ext _ (fun i offset => ((S k + i)%nat, offset)))
      by (intros j x _; simpl; f_equal; lia).
    assert (Hout_lt : out < length st) by (eapply lookup_lt_Some; exact Hout).
    cbn [forM_]. cbn beta iota. rewrite Nat.add_0_r.
    destruct (mute_offset <? o)%float eqn:Hmute.
    + unfold bindM at 1. unfold update at 1. rewrite Hout.
      destruct (Nat.lt_ge_cases k (length b)) as [Hk|Hk].
      * rewrite setitem_row_of_nat by exact Hk.
        apply (IH (S k) _ (alter (map (fun _ => 0%float)) k b)).
        { apply list_lookup_insert_eq. exact Hout_lt. }
        destruct i as [|i]; [simpl in Hge; lia|].
        exists i, offset. rewrite length_alter.
        split; [exact Hi|]. split; [lia|exact Hm].
      * destruct (setitem_row_past_end k 0 b Hk) as [msg ->].
        eexists. eexists. reflexivity.
    + unfold bindM at 1. unfold ret at 1.
      apply (IH (S k) st b Hout).
      destruct i as [|i].
      * simpl in Hi. injection Hi as ->. congruence.
      * exists i, offset. split; [exact Hi|]. split; [lia|exact Hm].
Qed.

(** X3. The offset mute. When no offset is given beyond the last trace,
    [offset_mute] returns a new matrix in which a trace whose offset is
    greater than [mute_offset] is zero throughout, and every other trace
    (one with a smaller or equal offset, an offset that is NaN, or no
    offset at all) is the input trace. An offset greater than
    [mute_offset] at an index that has no trace makes it raise
    [IndexError]. *)
Theorem offset_mute_traces (st : store) (data : ref) (a : ndarray)
  (offsets : list float) (mute_offset : float) :
  st !! data = Some a ->
  (length offsets <= length a ->
   exists muted,
     Mute.offset_mute data offsets mute_offset st
     = (Ok (length st), st ++ [muted])
     /\ length muted = length a
     /\ forall (t : nat) (trace : list float),
          a !! t = Some trace ->
          muted !! t
          = Some (match offsets !! t with
                  | Some offset =>
                      if (mute_offset <? offset)%float
                      then map (fun _ => 0%float) trace else trace
                  | None => trace
                  end))
  /\ ((exists i offset, offsets !! i = Some offset
                        /\ length a <= i
                        /\ (mute_offset <? offset)%float = true) ->
      exists msg st',
        Mute.offset_mute data offsets mute_offset st
        = (Raise (IndexError msg), st')).
Proof.
  intros Hdata.
  assert (Hcopy : copy data st = (Ok (length st), st ++ [a])).
  { unfold copy, bindM, load, alloc. rewrite Hdata. reflexivity. }
  assert (Hout : (st ++ [a]) !! length st = Some a).
  { rewrite lookup_app_r by lia. rewrite Nat.sub_diag. reflexivity. }
  split.
  - intros Hlen.
    destruct (offset_loop_run (length st) mute_offset offsets 0 (st ++ [a]) a
                Hout ltac:(simpl; lia)) as (b' & Hrun & Hl & Hrows).
    exists b'. split; [|split; [exact Hl|]].
    + unfold Mute.offset_mute. unfold bindM at 1. rewrite Hcopy.
      unfold bindM at 1. simpl in Hrun. rewrite Hrun. unfold ret. f_equal.
      rewrite insert_app_r_alt by lia. rewrite Nat.sub_diag. reflexivity.
    + intros t trace Ht. rewrite (Hrows t trace Ht). simpl.
      rewrite Nat.sub_0_r. reflexivity.
  - intros Hex.
    destruct (offset_loop_raises (length st) mute_offset offsets 0
                (st ++ [a]) a Hout) as (msg & st' & Hrun).
    { destruct Hex as (i & offset & Hi & Hge & Hm). exists i, offset.
      split; [exact Hi|]. split; [simpl; lia|exact Hm]. }
    exists msg, st'.
    unfold Mute.offset_mute. unfold bindM at 1. rewrite Hcopy.
    unfold bindM at 1. simpl in Hrun. rewrite Hrun. reflexivity.
Qed.

(** Two traces with offsets 10 and 30 muted beyond 20: the second trace
    is zeroed. A third offset of 30 has no trace to mute. *)
Lemma offset_mute_traces_witness :
  Mute.offset_mute 0%nat [10; 30]%float 20 Mute.two_trace_store
  = (Ok 1%nat,
     Mute.two_trace_store ++ [ [ [1; 2; 3]; [0; 0; 0] ]%float ])
  /\ exists msg st',
       Mute.offset_mute 0%nat [10; 30; 30]%float 20 Mute.two_trace_store
       = (Raise (IndexError msg), st').
Proof.
  split.
  - destruct (offset_mute_traces Mute.two_trace_store 0%nat
                [ [1; 2; 3]; [4; 5; 6] ]%float [10; 30]%float 20%float
                eq_refl) as [Hok _].
    destruct (Hok ltac:(simpl; lia)) as (muted & Hrun & Hl & Hrows).
    rewrite Hrun. do 3 f_equal.
    pose proof (Hrows 0%nat _ eq_refl) as H0.
    pose proof (Hrows 1%nat _ eq_refl) as H1.
    destruct muted as [|r0 [|r1 [|r2 rest]]]; try discriminate Hl.
    simpl in H0, H1. injection H0 as ->. injection H1 as ->. reflexivity.
  - destruct (offset_mute_traces Mute.two_trace_store 0%nat
                [ [1; 2; 3]; [4; 5; 6] ]%float [10; 30; 30]%float 20%float
                eq_refl) as [_ Hraise].
    apply Hraise. exists 2%nat, 30%float.
    split; [reflexivity|]. split; [simpl; lia|vm_compute; reflexivity].
Defined.


(** *** The time-variant mute *)

Lemma range_bounds (lo hi : Z) :
  Forall (fun i => (lo <= i < hi)%Z) (range lo hi).
Proof.
  unfold range. apply Forall_forall. intros i Hi.
  apply list_elem_of_fmap in Hi as (k & -> & Hk).
  apply elem_of_seq in Hk. lia.
Qed.

Lemma range_last (lo hi : Z) : (lo < hi)%Z -> (hi - 1)%Z ∈ range lo hi.
Proof.
  intros H. unfold range. apply list_elem_of_fmap.
  exists (Z.to_nat (hi - lo) - 1)%nat. split; [lia|].
  apply elem_of_seq. lia.
Qed.

(** The ramp touches only the samples its indices name. *)
Lemma ramp_loop_frame (s e : Z) (idxs : list Z) :
  forall trace trace' : list float,
    foldM (fun trace i =>
             let factor :=
               (float_of_Z (i - s) / float_of_Z (e - s))%float in
             let* k := index i (length trace) in
             Ok (alter (fun x => (x * (1 - factor))%float) k trace))
          idxs trace = Ok trace' ->
    length trace' = length trace
    /\ forall j : nat,
         Forall (fun i => index i (length trace) <> Ok j) idxs ->
         trace' !! j = trace !! j.
Proof.
  induction idxs as [|i idxs IH]; simpl; intros trace trace' H.
  - injection H as <-. split; reflexivity.
  - destruct (index i (length trace)) as [k|err] eqn:Hk; simpl in H;
      [|discriminate].
    destruct (IH _ _ H) as [Hlen Hframe]. rewrite length_alter in Hlen, Hframe.
    split; [exact Hlen|]. intros j Hj.
    apply Forall_cons in Hj as [Hij Hj].
    rewrite (Hframe j Hj). apply list_lookup_alter_ne. congruence.
Qed.

(** It returns when every index names a sample. *)
Lemma ramp_loop_returns (s e : Z) (idxs : list Z) :
  forall trace : list float,
    Forall (fun i => (0 <= i < Z.of_nat (length trace))%Z) idxs ->
    exists trace',
      foldM (fun trace i =>
               let factor :=
                 (float_of_Z (i - s) / float_of_Z (e - s))%float in
               let* k := index i (length trace) in
               Ok (alter (fun x => (x * (1 - factor))%float) k trace))
            idxs trace = Ok trace'.
Proof.
  induction idxs as [|i idxs IH]; simpl; intros trace H; [eauto|].
  apply Forall_cons in H as [Hi H].
  rewrite index_in_range by exact Hi. simpl.
  apply IH. rewrite length_alter. exact H.
Qed.

(** It raises [IndexError] when an index names no sample. *)
Lemma ramp_loop_raises (s e : Z) (idxs : list Z) :
  forall trace : list float,
    Exists (fun i => (Z.of_nat (length trace) <= i)%Z) idxs ->
    exists msg,
      foldM (fun trace i =>
               let factor :=
                 (float_of_Z (i - s) / float_of_Z (e - s))%float in
               let* k := index i (length trace) in
               Ok (alter (fun x => (x * (1 - factor))%float) k trace))
            idxs trace = Raise (IndexError msg).
Proof.
  induction idxs as [|i idxs IH]; simpl; intros trace H.
  - apply Exists_nil in H. destruct H.
  - unfold index at 1.
    destruct ((0 <=? i)%Z && (i <? Z.of_nat (length trace))%Z) eqn:Hin.
    + simpl. apply IH. rewrite length_alter.
      apply Exists_cons in H as [H|H]; [|exact H].
      apply andb_true_iff in Hin as [_ Hlt]. apply Z.ltb_lt in Hlt. lia.
    + destruct ((- Z.of_nat (length trace) <=? i)%Z && (i <? 0)%Z) eqn:Hneg.
      * simpl. apply IH. rewrite length_alter.
        apply Exists_cons in H as [H|H]; [|exact H].
        apply andb_true_iff in Hneg as [_ Hlt]. apply Z.ltb_lt in Hlt. lia.
      * simpl. eexists. reflexivity.
Qed.

Lemma mapM_lookup {A B} (f : A -> Result B) (xs : list A) (ys : list B) :
  mapM f xs = Ok ys ->
  forall (t : nat) (x : A), xs !! t = Some x ->
    exists y, ys !! t = Some y /\ f x = Ok y.
Proof.
  revert ys. induction xs as [|x0 xs IH]; simpl; intros ys H t x Ht.
  - rewrite lookup_nil in Ht. discriminate Ht.
  - destruct (f x0) as [y0|err] eqn:Hy0; simpl in H; [|discriminate].
    destruct (mapM f xs) as [ys'|err]; simpl in H; [|discriminate].
    injection H as <-. destruct t as [|t]; simpl in Ht.
    + injection Ht as <-. exists y0. split; [reflexivity|exact Hy0].
    + apply (IH ys' eq_refl t x Ht).
Qed.

Lemma mapM_returns {A B} (f : A -> Result B) (xs : list A) :
  Forall (fun x => exists y, f x = Ok y) xs -> exists ys, mapM f xs = Ok ys.
Proof.
  induction 1 as [|x xs [y Hy] _ [ys IH]]; simpl; [eauto|].
  rewrite Hy, IH. simpl. eauto.
Qed.

(** The run of [time_variant_mute] up to the ramp. *)
Lemma time_variant_mute_run (st : store) (data : ref) (a : ndarray)
  (initial_time final_time sample_interval q1 q2 : float) (s e : Z) :
  st !! data = Some a ->
  truediv initial_time sample_interval = Ok q1 ->
  int_of_float q1 = Ok s ->
  truediv final_time sample_interval = Ok q2 ->
  int_of_float q2 = Ok e ->
  Mute.time_variant_mute data initial_time final_time sample_interval st
  = match mapM (Mute.ramp_trace s e) a with
    | Ok b => (Ok (length st), st ++ [b])
    | Raise err => (Raise err, st ++ [a])
    end.
Proof.
  intros Hdata Hq1 Hs Hq2 He.
  unfold Mute.time_variant_mute, bindM, lift, copy, load, alloc, update, ret,
    bindM.
  rewrite Hdata, Hq1, Hs, Hq2, He, Hdata.
  rewrite lookup_app_r by lia. rewrite Nat.sub_diag. simpl.
  destruct (mapM (Mute.ramp_trace s e) a) as [b|err]; [|reflexivity].
  rewrite insert_app_r_alt by lia. rewrite Nat.sub_diag. reflexivity.
Qed.

(** X4. The time-variant mute on traces that reach the end of the mute
    window. With window indices [s = int(initial_time / sample_interval)]
    and [e = int(final_time / sample_interval)], [0 <= s], and at least
    [e] samples in every trace, [time_variant_mute] returns a new matrix
    of the shape of the input in which every sample before [s] and every
    sample from [e] on is the input sample. This includes the empty
    window [e <= s], where the span [e - s] the ramp divides by is zero
    or negative: no sample is changed, and nothing is divided. *)
Theorem time_variant_mute_window (st : store) (data : ref) (a : ndarray)
  (initial_time final_time sample_interval q1 q2 : float) (s e : Z) :
  st !! data = Some a ->
  truediv initial_time sample_interval = Ok q1 ->
  int_of_float q1 = Ok s ->
  truediv final_time sample_interval = Ok q2 ->
  int_of_float q2 = Ok e ->
  (0 <= s)%Z ->
  Forall (fun trace => (e <= Z.of_nat (length trace))%Z) a ->
  exists muted,
    Mute.time_variant_mute data initial_time final_time sample_interval st
    = (Ok (length st), st ++ [muted])
    /\ same_shape a muted
    /\ forall (t : nat) (trace : list float) (j : nat),
         a !! t = Some trace ->
         (Z.of_nat j < s)%Z \/ (e <= Z.of_nat j)%Z ->
         exists mtrace, muted !! t = Some mtrace /\ mtrace !! j = trace !! j.
Proof.
  intros Hdata Hq1 Hs Hq2 He Hpos Hrows.
  rewrite (time_variant_mute_run st data a _ _ _ q1 q2 s e Hdata Hq1 Hs Hq2 He).
  destruct (mapM_returns (Mute.ramp_trace s e) a) as [b Hb].
  { eapply Forall_impl; [exact Hrows|]. intros trace Htrace. simpl in Htrace.
    apply ramp_loop_returns.
    eapply Forall_impl; [apply range_bounds|]. simpl. lia. }
  rewrite Hb. exists b. split; [reflexivity|].
  split; [apply (mapM_ramp_shape s e a b Hb)|].
  intros t trace j Ht Hj.
  destruct (mapM_lookup _ _ _ Hb t trace Ht) as (mtrace & Hm & Hramp).
  exists mtrace. split; [exact Hm|].
  apply (ramp_loop_frame s e _ _ _ Hramp).
  eapply Forall_impl; [apply range_bounds|]. intros i Hi Hidx. simpl in Hi.
  unfold index in Hidx.
  destruct ((0 <=? i)%Z && (i <? Z.of_nat (length trace))%Z) eqn:Hin.
  - injection Hidx as <-. lia.
  - apply andb_false_iff in Hin as [Hin|Hin];
      [apply Z.leb_gt in Hin; lia|].
    destruct ((- Z.of_nat (length trace) <=? i)%Z && (i <? 0)%Z) eqn:Hneg;
      [|discriminate].
    apply andb_true_iff in Hneg as [_ Hlt]. apply Z.ltb_lt in Hlt. lia.
Qed.

(** A window from sample 1 to sample 2 on two traces of three samples:
    the first and the last sample of each trace are kept. *)
Lemma time_variant_mute_window_witness :
  exists muted,
    Mute.time_variant_mute 0%nat Mute.seconds_0_001 Mute.seconds_0_002
      Mute.seconds_0_001 Mute.two_trace_store
    = (Ok 1%nat, Mute.two_trace_store ++ [muted])
    /\ same_shape [ [1; 2; 3]; [4; 5; 6] ]%float muted
    /\ forall (t : nat) (trace : list float) (j : nat),
         [ [1; 2; 3]; [4; 5; 6] ]%float !! t = Some trace ->
         (Z.of_nat j < 1)%Z \/ (2 <= Z.of_nat j)%Z ->
         exists mtrace, muted !! t = Some mtrace /\ mtrace !! j = trace !! j.
Proof.
  apply (time_variant_mute_window Mute.two_trace_store 0%nat _ _ _ _
           1%float 2%float 1%Z 2%Z);
    [reflexivity
    |vm_compute; reflexivity|vm_compute; reflexivity
    |vm_compute; reflexivity|vm_compute; reflexivity
    |lia
    |repeat constructor; simpl; lia].
Defined.

(** X5. A mute window that ends past the last sample is not clamped:
    when the window is not empty ([s < e]) and the first trace has fewer
    than [e] samples, [time_variant_mute] raises [IndexError]. *)
Theorem time_variant_mute_past_end (st : store) (data : ref)
  (trace : list float) (rest : ndarray)
  (initial_time final_time sample_interval q1 q2 : float) (s e : Z) :
  st !! data = Some (trace :: rest) ->
  truediv initial_time sample_interval = Ok q1 ->
  int_of_float q1 = Ok s ->
  truediv final_time sample_interval = Ok q2 ->
  int_of_float q2 = Ok e ->
  (s < e)%Z ->
  (Z.of_nat (length trace) < e)%Z ->
  exists msg st',
    Mute.time_variant_mute data initial_time final_time sample_interval st
    = (Raise (IndexError msg), st').
Proof.
  intros Hdata Hq1 Hs Hq2 He Hse Hlen.
  rewrite (time_variant_mute_run st data _ _ _ _ q1 q2 s e Hdata Hq1 Hs Hq2 He).
  destruct (ramp_loop_raises s e (range s e) trace) as [msg Hmsg].
  { apply Exists_exists. exists (e - 1)%Z.
    split; [apply range_last; exact Hse|lia]. }
  assert (Hmap : mapM (Mute.ramp_trace s e) (trace :: rest)
                 = Raise (IndexError msg)).
  { cbn [mapM]. unfold Mute.ramp_trace at 1. cbv zeta in Hmsg.
    rewrite Hmsg. reflexivity. }
  rewrite Hmap. eauto.
Qed.

(** A window from sample 1 to sample 4 on traces of three samples. *)
Lemma time_variant_mute_past_end_witness :
  exists msg st',
    Mute.time_variant_mute 0%nat Mute.seconds_0_001
      (4 * Mute.seconds_0_001) Mute.seconds_0_001 Mute.two_trace_store
    = (Raise (IndexError msg), st').
Proof.
  apply (time_variant_mute_past_end Mute.two_trace_store 0%nat
           [1; 2; 3]%float [ [4; 5; 6]%float ] _ _ _ 1%float 4%float 1%Z 4%Z);
    [reflexivity
    |vm_compute; reflexivity|vm_compute; reflexivity
    |vm_compute; reflexivity|vm_compute; reflexivity
    |lia|simpl; lia].
Defined.


(** *** The polygon mute *)

Section Polygon.
Variable contains_point : list (float * float) -> Z * Z -> bool.

(** X6. The polygon mute with a polygon drawn. It returns a new matrix
    of the shape of [self.data] in which the sample [j] of the trace [i]
    is zero when the point [(i, j)] is inside the polygon, and the input
    sample otherwise. *)
Theorem apply_polygon_mute_cells (polygon : list (float * float))
  (d : ref) (st : store) (a : ndarray) :
  st !! d = Some a ->
  exists muted,
    Mute.apply_polygon_mute contains_point
      {| Mute.mute_polygon := Some polygon; Mute.data := Some d |} st
    = (Ok (Some (length st)), st ++ [muted])
    /\ same_shape a muted
    /\ forall (i j : nat) (trace : list float) (x : float),
         a !! i = Some trace -> trace !! j = Some x ->
         exists mtrace,
           muted !! i = Some mtrace
           /\ mtrace !! j
              = Some (if contains_point polygon (Z.of_nat i, Z.of_nat j)
                      then 0%float else x).
Proof.
  intros Hdata. eexists. split; [|split].
  - unfold Mute.apply_polygon_mute, bindM, load, alloc, ret. simpl.
    rewrite Hdata. reflexivity.
  - unfold same_shape. apply list_eq. intros i.
    rewrite !list_lookup_fmap, lookup_zip_with, list_lookup_imap.
    destruct (a !! i) as [trace|]; simpl; [|reflexivity].
    rewrite length_zip_with, length_imap, Nat.min_id. reflexivity.
  - intros i j trace x Hi Hj. eexists. split.
    + rewrite lookup_zip_with, list_lookup_imap, Hi. simpl. reflexivity.
    + rewrite lookup_zip_with, list_lookup_imap, Hj. simpl. reflexivity.
Qed.

End Polygon.

(** The polygon mute on two traces of three samples, with a region that
    holds the first sample of each trace. *)
Lemma apply_polygon_mute_cells_witness :
  exists muted,
    Mute.apply_polygon_mute Mute.first_sample_inside
      {| Mute.mute_polygon := Some []; Mute.data := Some 0%nat |}
      Mute.two_trace_store
    = (Ok (Some 1%nat), Mute.two_trace_store ++ [muted])
    /\ same_shape [ [1; 2; 3]; [4; 5; 6] ]%float muted
    /\ forall (i j : nat) (trace : list float) (x : float),
         [ [1; 2; 3]; [4; 5; 6] ]%float !! i = Some trace ->
         trace !! j = Some x ->
         exists mtrace,
           muted !! i = Some mtrace
           /\ mtrace !! j
              = Some (if Mute.first_sample_inside []
                           (Z.of_nat i, Z.of_nat j)
                      then 0%float else x).
Proof.
  apply (apply_polygon_mute_cells Mute.first_sample_inside [] 0%nat
           Mute.two_trace_store [ [1; 2; 3]; [4; 5; 6] ]%float).
  reflexivity.
Defined.

(** *** The predefined mutes *)

Lemma deep_zone_mute_spec (data : ref) (sample_interval : float)
  (st0 : store) :
  wp (PredefinedMute.deep_zone_mute data sample_interval)
     (well_behaved st0 data) st0.
Proof.
  unfold PredefinedMute.deep_zone_mute.
  apply wp_bind, wp_load; [intros a _|raise_done].
  apply bottom_mute_spec.
Qed.

(** X7. The three predefined mutes (shallow zone, deep zone, marine
    direct wave) behave as the mutes they are built from: each leaves
    every array of the caller's store as it was, whether it returns or
    raises, and what it returns is a new array of the shape of the
    input. *)
Theorem predefined_mutes_functional (data : ref) (sample_interval : float) :
  (functional_operation (PredefinedMute.shallow_zone_mute data sample_interval)
   /\ keeps_shape data
        (PredefinedMute.shallow_zone_mute data sample_interval))
  /\ (functional_operation
        (PredefinedMute.deep_zone_mute data sample_interval)
      /\ keeps_shape data
           (PredefinedMute.deep_zone_mute data sample_interval))
  /\ (functional_operation
        (PredefinedMute.marine_direct_wave_mute data sample_interval)
      /\ keeps_shape data
           (PredefinedMute.marine_direct_wave_mute data sample_interval)).
Proof.
  repeat apply conj;
    first [eapply functional_operation_intro | apply keeps_shape_intro];
    intros st0;
    first [apply top_mute_spec | apply deep_zone_mute_spec].
Qed.

End MuteBoundaries.

(** ** The gains, trace by trace *)

Module GainProofs.
Import Np NpOps Effect StoreProofs MuteBoundaries.

Lemma range_from_zero (n : nat) :
  range 0 (Z.of_nat n) = map Z.of_nat (seq 0 n).
Proof.
  unfold range. rewrite Z.sub_0_r, Nat2Z.id. apply map_ext. intros k. lia.
Qed.

(** The loop shared by [agc_gain], [tvg_gain] and [wiener_deconvolution]
    when the function [f] applied to each trace returns a row of the
    length of the trace: it fills the output array row by row and
    returns. *)
Section RowLoop.
Variables (data out : ref).
Variable f : list float -> Result (list float).
Variable a : ndarray.
Hypothesis distinct : data <> out.
Hypothesis rows_return :
  forall row, row ∈ a -> exists r, f row = Ok r /\ length r = length row.

Lemma row_loop_returns (m : nat) :
  forall (i : nat) (st : store) (cur : ndarray),
    i + m = length a ->
    st !! data = Some a ->
    st !! out = Some cur ->
    rows_filled f a i cur ->
    exists cur',
      forM_ (map Z.of_nat (seq i m))
        (fun i =>
           let! a := load data in
           let! k := lift (index i (length a)) in
           match a !! k with
           | Some trace =>
               let! row := lift (f trace) in
               update out (setitem_row_values i row)
           | None => raise (IndexError "index out of bounds")
           end) st
      = (Ok tt, <[out := cur']> st)
      /\ rows_filled f a (length a) cur'.
Proof using distinct rows_return.
  induction m as [|m IH]; intros i st cur Him Hdata Hout Hfilled.
  - exists cur. split.
    + simpl. unfold ret. f_equal. symmetry. apply list_insert_id. exact Hout.
    + replace (length a) with i by lia. exact Hfilled.
  - assert (Hi : i < length a) by lia.
    destruct (lookup_lt_is_Some_2 a i Hi) as [row Hrow].
    destruct (rows_return row) as (r & Hr & Hlen);
      [eapply list_elem_of_lookup_2; exact Hrow|].
    destruct Hfilled as [Hshape Hdone].
    assert (Hcur_len : length cur = length a).
    { unfold same_shape in Hshape.
      rewrite <- (length_map length cur), <- Hshape. apply length_map. }
    destruct (lookup_lt_is_Some_2 cur i ltac:(lia)) as [old Hold].
    assert (Hold_len : length old = length row).
    { unfold same_shape in Hshape.
      assert (H : (map length a) !! i = (map length cur) !! i)
        by (rewrite Hshape; reflexivity).
      change (map length a) with (length <$> a) in H.
      change (map length cur) with (length <$> cur) in H.
      rewrite !list_lookup_fmap, Hrow, Hold in H. simpl in H.
      injection H as H. symmetry. exact H. }
    assert (Hout_lt : out < length st) by (eapply lookup_lt_Some; exact Hout).
    assert (Hstep :
      (let! a := load data in
       let! k := lift (index (Z.of_nat i) (length a)) in
       match a !! k with
       | Some trace =>
           let! row := lift (f trace) in
           update out (setitem_row_values (Z.of_nat i) row)
       | None => raise (IndexError "index out of bounds")
       end) st = (Ok tt, <[out := <[i := r]> cur]> st)).
    { unfold bindM, load, lift, update. rewrite Hdata.
      rewrite index_of_nat by exact Hi. rewrite Hrow, Hr, Hout.
      unfold setitem_row_values. rewrite index_of_nat by lia. simpl.
      rewrite Hold. rewrite Hlen, <- Hold_len, Nat.eqb_refl. reflexivity. }
    destruct (IH (S i) (<[out := <[i := r]> cur]> st) (<[i := r]> cur))
      as (cur' & Hrun & Hfilled').
    + lia.
    + rewrite list_lookup_insert_ne by congruence. exact Hdata.
    + apply list_lookup_insert_eq. exact Hout_lt.
    + split.
      * apply (same_shape_trans a cur _ Hshape).
        apply (same_shape_insert i old r cur Hold). congruence.
      * intros t row' Ht Hrow'. destruct (decide (t = i)) as [->|Hne].
        -- rewrite Hrow in Hrow'. injection Hrow' as <-.
           exists r. split; [|exact Hr].
           apply list_lookup_insert_eq. lia.
        -- destruct (Hdone t row' ltac:(lia) Hrow') as (r' & Hr' & Hf).
           exists r'. split; [|exact Hf].
           rewrite list_lookup_insert_ne by congruence. exact Hr'.
    + exists cur'. split; [|exact Hfilled'].
      cbn [seq map forM_]. unfold bindM at 1. rewrite Hstep.
      rewrite Hrun, list_insert_insert_eq. reflexivity.
Qed.

(** An operation of the form [out = np.zeros_like(data)], the loop,
    [return out]. *)
Lemma zeros_then_rows (st : store) :
  st !! data = Some a ->
  out = length st ->
  exists result,
    (let! _ :=
       forM_ (range 0 (Z.of_nat (length a)))
         (fun i =>
            let! a := load data in
            let! k := lift (index i (length a)) in
            match a !! k with
            | Some trace =>
                let! row := lift (f trace) in
                update out (setitem_row_values i row)
            | None => raise (IndexError "index out of bounds")
            end) in
     ret out) (st ++ [map (map (fun _ => 0%float)) a])
    = (Ok (length st), st ++ [result])
    /\ same_shape a result
    /\ forall (t : nat) (row : list float),
         a !! t = Some row ->
         exists r, result !! t = Some r /\ f row = Ok r.
Proof using distinct rows_return.
  intros Hdata Hout.
  destruct (row_loop_returns (length a) 0
              (st ++ [map (map (fun _ => 0%float)) a])
              (map (map (fun _ => 0%float)) a))
    as (cur' & Hrun & Hshape & Hrows).
  - reflexivity.
  - apply lookup_app_l_Some. exact Hdata.
  - rewrite lookup_app_r by lia.
    replace (out - length st) with 0 by lia. reflexivity.
  - split.
    + apply same_shape_map. intros row. apply length_map.
    + intros t row Ht. lia.
  - exists cur'. split; [|split; [exact Hshape|]].
    + rewrite range_from_zero. unfold bindM at 1. rewrite Hrun.
      unfold ret. rewrite insert_app_r_alt by lia.
      replace (out - length st) with 0 by lia. rewrite Hout. reflexivity.
    + intros t row Ht. apply (Hrows t row); [|exact Ht].
      eapply lookup_lt_Some. exact Ht.
Qed.

End RowLoop.


(** *** Time-variant gain *)

Lemma elementwise_returns (op : float -> float -> float) (x y : list float) :
  length x = length y ->
  elementwise op x y = Ok (zip_with op x y).
Proof. intros H. unfold elementwise. rewrite H, Nat.eqb_refl. reflexivity. Qed.

Lemma elementwise_raises (op : float -> float -> float) (x y : list float) :
  length x <> length y ->
  exists msg, elementwise op x y = Raise (ValueError msg).
Proof.
  intros H. unfold elementwise.
  destruct (Nat.eqb_spec (length x) (length y)); [contradiction|].
  eexists. reflexivity.
Qed.

Lemma zeros_like_run (st : store) (data : ref) (a : ndarray) :
  st !! data = Some a ->
  zeros_like data st
  = (Ok (length st), st ++ [map (map (fun _ => 0%float)) a]).
Proof.
  intros H. unfold zeros_like, bindM, load, alloc. rewrite H. reflexivity.
Qed.

Section Power.
Variable np_power : float -> float -> float.


End Power.



(** *** Automatic gain control *)

Lemma convolve_same_returns {T} (zero : T) (add mul : T -> T -> T)
  (a v : list T) :
  a <> [] -> v <> [] ->
  exists r, Arr.convolve_same zero add mul a v = Ok r
            /\ length r = Nat.max (length a) (length v).
Proof.
  intros Ha Hv. destruct a as [|x a]; [contradiction|].
  destruct v as [|y v]; [contradiction|].
  eexists. split; [reflexivity|].
  rewrite length_map, PyFacts.range_length. lia.
Qed.

Lemma convolve_same_empty {T} (zero : T) (add mul : T -> T -> T)
  (a v : list T) :
  a = [] \/ v = [] ->
  exists msg, Arr.convolve_same zero add mul a v = Raise (ValueError msg).
Proof.
  intros [->| ->]; [eexists; reflexivity|].
  destruct a; eexists; reflexivity.
Qed.

(** A window of 1 to [len(trace)] samples gives a row for the trace. *)
Lemma agc_trace_returns (window_size : Z) (trace : list float) :
  (1 <= window_size <= Z.of_nat (length trace))%Z ->
  exists r, Gains.agc_trace window_size trace = Ok r
            /\ length r = length trace.
Proof.
  intros Hw. unfold Gains.agc_trace.
  destruct (Z.ltb_spec window_size 0); [lia|].
  destruct (convolve_same_returns 0%float PrimFloat.add PrimFloat.mul
              (map pow2 (map PrimFloat.abs trace))
              (replicate (Z.to_nat window_size)
                 (1 / float_of_Z window_size)%float))
    as (ms & -> & Hms).
  - intros Hnil. apply (f_equal length) in Hnil.
    rewrite !length_map in Hnil. simpl in Hnil. lia.
  - intros Hnil. apply (f_equal length) in Hnil.
    rewrite length_replicate in Hnil. simpl in Hnil. lia.
  - rewrite !length_map, length_replicate in Hms. cbn [bind].
    rewrite elementwise_returns by (rewrite !length_map; lia).
    eexists. split; [reflexivity|].
    rewrite length_zip_with, !length_map. lia.
Qed.

(** Any other window makes the trace raise [ValueError]: a negative
    window has no array of ones, an empty window or an empty trace
    cannot be convolved, and a window longer than the trace gives a
    local RMS longer than the trace, which cannot be divided into it. *)
Lemma agc_trace_raises (window_size : Z) (trace : list float) :
  ~ (1 <= window_size <= Z.of_nat (length trace))%Z ->
  exists msg, Gains.agc_trace window_size trace = Raise (ValueError msg).
Proof.
  intros Hw. unfold Gains.agc_trace.
  destruct (Z.ltb_spec window_size 0); [eexists; reflexivity|].
  destruct (decide (trace = [] \/ window_size = 0%Z)) as [Hempty|Hne].
  - destruct (convolve_same_empty 0%float PrimFloat.add PrimFloat.mul
                (map pow2 (map PrimFloat.abs trace))
                (replicate (Z.to_nat window_size)
                   (1 / float_of_Z window_size)%float))
      as (msg & ->).
    + destruct Hempty as [->| ->]; [left|right]; reflexivity.
    + exists msg. reflexivity.
  - destruct (convolve_same_returns 0%float PrimFloat.add PrimFloat.mul
                (map pow2 (map PrimFloat.abs trace))
                (replicate (Z.to_nat window_size)
                   (1 / float_of_Z window_size)%float))
      as (ms & -> & Hms).
    + intros Hnil. apply Hne. left.
      destruct trace; [reflexivity|discriminate Hnil].
    + intros Hnil. apply (f_equal length) in Hnil.
      rewrite length_replicate in Hnil. simpl in Hnil. apply Hne. right. lia.
    + rewrite !length_map, length_replicate in Hms. cbn [bind].
      apply elementwise_raises. rewrite !length_map. lia.
Qed.



End GainProofs.

(** ** Trace quality control *)

Module TraceQCProofs.
Import Np NpOps Effect StoreProofs MuteBoundaries TraceQC.

(** *** The lists of indices the detectors build *)

(** The loop shared by the three detectors, with its condition as a
    parameter: over the traces from [k] on it appends to [acc] the indices
    of the traces that satisfy the condition, in increasing order. *)
Lemma flag_loop (cond : list float -> Result bool) (data : ndarray) :
  forall (k : nat) (acc l : list Z),
    foldM (fun acc '(i, trace) =>
             let* c := cond trace in Ok (if c then acc ++ [i] else acc))
          (imap (fun i x => (Z.of_nat (k + i), x)) data) acc = Ok l ->
    exists l',
      l = acc ++ l'
      /\ StronglySorted Z.lt l'
      /\ Forall (fun i => (Z.of_nat k <= i < Z.of_nat (k + length data))%Z) l'
      /\ forall (t : nat) (trace : list float),
           data !! t = Some trace ->
           (Z.of_nat (k + t) ∈ l' <-> cond trace = Ok true).
Proof.
  induction data as [|x data IH]; intros k acc l H.
  - simpl in H. injection H as <-. exists []. rewrite app_nil_r.
    split; [reflexivity|]. split; [constructor|]. split; [constructor|].
    intros t trace Ht. rewrite lookup_nil in Ht. discriminate Ht.
  - rewrite imap_cons in H.
    rewrite (imap_ext _ (fun i x => (Z.of_nat (S k + i), x))) in H
      by (intros i y _; simpl; do 2 f_equal; lia).
    cbn [foldM] in H. cbn beta iota in H.
    destruct (cond x) as [c|e] eqn:Hc; [|discriminate H].
    cbn [bind] in H.
    destruct (IH (S k) _ l H) as (l'' & -> & Hsorted & Hbounds & Hmem).
    rewrite Nat.add_0_r.
    exists ((if c then [Z.of_nat k] else []) ++ l'').
    assert (Hfresh : Z.of_nat k ∉ l'').
    { intros Hin. rewrite Forall_forall in Hbounds.
      specialize (Hbounds _ Hin). lia. }
    split; [|split; [|split]].
    + destruct c; [rewrite <- app_assoc|]; reflexivity.
    + destruct c; [|exact Hsorted]. simpl. constructor; [exact Hsorted|].
      eapply Forall_impl; [exact Hbounds|]. simpl. lia.
    + apply Forall_app. split.
      * destruct c; constructor; [simpl; lia|constructor].
      * eapply Forall_impl; [exact Hbounds|]. simpl. lia.
    + intros t trace Ht. destruct t as [|t]; simpl in Ht.
      * injection Ht as <-. rewrite Nat.add_0_r, Hc.
        rewrite elem_of_app. destruct c; split.
        -- reflexivity.
        -- intros _. left. apply list_elem_of_singleton. reflexivity.
        -- intros [Hin|Hin]; [inversion Hin|contradiction].
        -- intros Heq. discriminate Heq.
      * rewrite <- (Hmem t trace Ht).
        replace (S k + t) with (k + S t) by lia.
        rewrite elem_of_app. split; [|intros Hin; right; exact Hin].
        intros [Hin|Hin]; [|exact Hin].
        destruct c; [|inversion Hin].
        apply list_elem_of_singleton in Hin. lia.
Qed.

Lemma foldM_ext {A S} (f g : S -> A -> Result S) (xs : list A) (acc : S) :
  (forall acc x, f acc x = g acc x) -> foldM f xs acc = foldM g xs acc.
Proof.
  intros Hfg. revert acc. induction xs as [|x xs IH]; intros acc; simpl.
  - reflexivity.
  - rewrite Hfg. destruct (g acc x); simpl; [apply IH|reflexivity].
Qed.

(** What a detector with condition [cond] returns: the indices of the
    traces that satisfy it, each once, in increasing order. *)
Lemma flag_loop_spec (cond : list float -> Result bool) (data : ndarray)
  (l : list Z) :
  foldM (fun acc '(i, trace) =>
           let* c := cond trace in Ok (if c then acc ++ [i] else acc))
        (enumerate data) [] = Ok l ->
  StronglySorted Z.lt l
  /\ Forall (fun i => (0 <= i < Z.of_nat (length data))%Z) l
  /\ forall (t : nat) (trace : list float),
       data !! t = Some trace ->
       (Z.of_nat t ∈ l <-> cond trace = Ok true).
Proof.
  intros H. destruct (flag_loop cond data 0 [] l H)
    as (l' & -> & Hsorted & Hbounds & Hmem).
  simpl. split; [exact Hsorted|]. split; [exact Hbounds|exact Hmem].
Qed.

Lemma detect_dead_as_flag_loop (self : TraceQC) (data : ndarray) :
  detect_dead_traces self data
  = foldM (fun acc '(i, trace) =>
             let* c :=
               Ok (forallb (fun x => (PrimFloat.abs x
                                      <? threshold_dead self)%float) trace) in
             Ok (if c then acc ++ [i] else acc))
          (enumerate data) [].
Proof.
  unfold detect_dead_traces. apply foldM_ext. intros acc [i trace]. simpl.
  destruct (forallb _ trace); reflexivity.
Qed.

Lemma detect_clipped_as_flag_loop (self : TraceQC) (data : ndarray) :
  detect_clipped_traces self data
  = foldM (fun acc '(i, trace) =>
             let* c :=
               (let* max_val := np_max (map PrimFloat.abs trace) in
                Ok (float_of_Z (Z.of_nat (length trace))
                    * 0x1.999999999999ap-4
                    <? float_of_Z
                         (Z.of_nat
                            (length
                               (List.filter
                                  (fun x => (clip_threshold self * max_val
                                             <? PrimFloat.abs x)%float)
                                  trace))))%float) in
             Ok (if c then acc ++ [i] else acc))
          (enumerate data) [].
Proof.
  unfold detect_clipped_traces. apply foldM_ext. intros acc [i trace]. simpl.
  destruct (np_max (map PrimFloat.abs trace)) as [m|e]; simpl; [|reflexivity].
  destruct (_ <? _)%float; reflexivity.
Qed.

Lemma detect_low_energy_as_flag_loop (np_mean : list float -> float)
  (self : TraceQC) (data : ndarray) :
  detect_low_energy_traces np_mean self data
  = foldM (fun acc '(i, trace) =>
             let* c :=
               Ok (PrimFloat.sqrt (np_mean (map pow2 trace))
                   <? energy_threshold self)%float in
             Ok (if c then acc ++ [i] else acc))
          (enumerate data) [].
Proof.
  unfold detect_low_energy_traces. apply foldM_ext. intros acc [i trace].
  simpl. destruct (_ <? _)%float; reflexivity.
Qed.

Lemma forallb_Forall_true {A} (f : A -> bool) (l : list A) :
  forallb f l = true <-> Forall (fun x => f x = true) l.
Proof.
  induction l as [|x l IH]; simpl.
  - split; [constructor|reflexivity].
  - rewrite andb_true_iff, IH, Forall_cons. reflexivity.
Qed.

Lemma detect_dead_returns (self : TraceQC) (data : ndarray) :
  exists l, detect_dead_traces self data = Ok l.
Proof.
  unfold detect_dead_traces, enumerate.
  assert (H : forall k acc, exists l,
             foldM (fun dead_indices '(i, trace) =>
                      if forallb (fun x => (PrimFloat.abs x
                                            <? threshold_dead self)%float)
                           trace
                      then Ok (dead_indices ++ [i])
                      else Ok dead_indices)
                   (imap (fun i x => (Z.of_nat (k + i), x)) data) acc = Ok l).
  { induction data as [|x data IH]; intros k acc; [simpl; eauto|].
    rewrite imap_cons.
    rewrite (imap_ext _ (fun i x => (Z.of_nat (S k + i), x)))
      by (intros i y _; simpl; do 2 f_equal; lia).
    cbn [foldM]. cbn beta iota.
    destruct (forallb _ x); cbn [bind]; apply IH. }
  exact (H 0 []).
Qed.

(** X10. Dead traces. [detect_dead_traces] always returns, and what it
    returns are the indices, each once and in increasing order, of
    exactly the traces all of whose samples are smaller than
    [threshold_dead] in absolute value: a trace with a NaN sample is not
    dead, and a trace with no sample is. *)
Theorem detect_dead_traces_indices (self : TraceQC) (data : ndarray) :
  exists dead_indices,
    detect_dead_traces self data = Ok dead_indices
    /\ StronglySorted Z.lt dead_indices
    /\ Forall (fun i => (0 <= i < Z.of_nat (length data))%Z) dead_indices
    /\ forall (t : nat) (trace : list float),
         data !! t = Some trace ->
         (Z.of_nat t ∈ dead_indices
          <-> Forall (fun x => (PrimFloat.abs x
                                <? threshold_dead self)%float = true) trace).
Proof.
  destruct (detect_dead_returns self data) as [l Hl].
  exists l. split; [exact Hl|].
  rewrite detect_dead_as_flag_loop in Hl.
  destruct (flag_loop_spec _ data l Hl) as (Hsorted & Hbounds & Hmem).
  split; [exact Hsorted|]. split; [exact Hbounds|].
  intros t trace Ht. rewrite (Hmem t trace Ht).
  rewrite <- forallb_Forall_true. split.
  - intros H. injection H as ->. reflexivity.
  - intros ->. reflexivity.
Qed.


(** *** Flagging traces *)

Lemma index_valid (i : Z) (n : nat) :
  (- Z.of_nat n <= i < Z.of_nat n)%Z ->
  exists k, index i n = Ok k /\ k < n.
Proof.
  intros H. unfold index.
  destruct (Z.leb_spec 0 i), (Z.ltb_spec i (Z.of_nat n)),
           (Z.leb_spec (- Z.of_nat n) i), (Z.ltb_spec i 0);
    simpl; try lia; eexists; (split; [reflexivity|lia]).
Qed.

Lemma index_invalid (i : Z) (n : nat) :
  ~ (- Z.of_nat n <= i < Z.of_nat n)%Z ->
  exists msg, index i n = Raise (IndexError msg).
Proof.
  intros H. unfold index.
  destruct (Z.leb_spec 0 i), (Z.ltb_spec i (Z.of_nat n)),
           (Z.leb_spec (- Z.of_nat n) i), (Z.ltb_spec i 0);
    simpl; try lia; eexists; reflexivity.
Qed.

(** The loop of [annotate_traces] when every index names a trace. *)
Lemma annotate_loop_run (out : ref) (n : nat) (flagged : list Z) :
  forall (st : store) (b : ndarray),
    st !! out = Some b ->
    length b = n ->
    Forall (fun i => (- Z.of_nat n <= i < Z.of_nat n)%Z) flagged ->
    exists b',
      forM_ flagged (fun idx => update out (setitem_row idx PrimFloat.nan)) st
      = (Ok tt, <[out := b']> st)
      /\ length b' = n
      /\ forall (t : nat) (row : list float),
           b !! t = Some row ->
           b' !! t = Some (if names_trace n flagged t
                           then map (fun _ => PrimFloat.nan) row else row).
Proof.
  induction flagged as [|i flagged IH]; intros st b Hout Hlen Hvalid.
  - exists b. split; [|split; [exact Hlen|]].
    + simpl. unfold ret. f_equal. symmetry. apply list_insert_id. exact Hout.
    + intros t row Ht. exact Ht.
  - apply Forall_cons in Hvalid as [Hi Hvalid].
    destruct (index_valid i n Hi) as (k & Hk & Hkn).
    assert (Hout_lt : out < length st) by (eapply lookup_lt_Some; exact Hout).
    destruct (IH (<[out := alter (map (fun _ => PrimFloat.nan)) k b]> st)
                (alter (map (fun _ => PrimFloat.nan)) k b))
      as (b' & Hrun & Hl & Hrows).
    { apply list_lookup_insert_eq. exact Hout_lt. }
    { rewrite length_alter. exact Hlen. }
    { exact Hvalid. }
    exists b'. split; [|split; [exact Hl|]].
    + cbn [forM_]. unfold bindM at 1. unfold update at 1. rewrite Hout.
      unfold setitem_row at 1. rewrite Hlen, Hk. cbn [bind].
      rewrite Hrun, list_insert_insert_eq. reflexivity.
    + intros t row Ht. unfold names_trace. cbn [existsb]. rewrite Hk.
      fold (names_trace n flagged t).
      destruct (Nat.eqb_spec k t) as [->|Hne].
      * rewrite (Hrows t (map (fun _ => PrimFloat.nan) row))
          by (rewrite list_lookup_alter_eq, Ht; reflexivity).
        simpl. destruct (names_trace n flagged t); [|reflexivity].
        rewrite map_map. reflexivity.
      * rewrite (Hrows t row)
          by (rewrite list_lookup_alter_ne by exact Hne; exact Ht).
        reflexivity.
Qed.

(** The loop when an index names no trace. *)
Lemma annotate_loop_raises (out : ref) (n : nat) (flagged : list Z) :
  forall (st : store) (b : ndarray),
    st !! out = Some b ->
    length b = n ->
    Exists (fun i => ~ (- Z.of_nat n <= i < Z.of_nat n)%Z) flagged ->
    exists msg st',
      forM_ flagged (fun idx => update out (setitem_row idx PrimFloat.nan)) st
      = (Raise (IndexError msg), st').
Proof.
  induction flagged as [|i flagged IH]; intros st b Hout Hlen Hbad.
  - apply Exists_nil in Hbad. destruct Hbad.
  - assert (Hout_lt : out < length st) by (eapply lookup_lt_Some; exact Hout).
    cbn [forM_]. unfold bindM at 1. unfold update at 1. rewrite Hout.
    unfold setitem_row at 1. rewrite Hlen.
    destruct (decide (- Z.of_nat n <= i < Z.of_nat n)%Z) as [Hi|Hi].
    + destruct (index_valid i n Hi) as (k & -> & Hkn). cbn [bind].
      apply (IH _ (alter (map (fun _ => PrimFloat.nan)) k b)).
      * apply list_lookup_insert_eq. exact Hout_lt.
      * rewrite length_alter. exact Hlen.
      * apply Exists_cons in Hbad as [Hbad|Hbad]; [contradiction|exact Hbad].
    + destruct (index_invalid i n Hi) as [msg ->]. cbn [bind]. eauto.
Qed.

Lemma copy_run (st : store) (data : ref) (a : ndarray) :
  st !! data = Some a -> copy data st = (Ok (length st), st ++ [a]).
Proof. intros H. unfold copy, bindM, load, alloc. rewrite H. reflexivity. Qed.

Lemma annotate_traces_run (st : store) (data : ref) (a : ndarray)
  (flagged_indices : list Z) :
  st !! data = Some a ->
  Forall (fun i => (- Z.of_nat (length a) <= i < Z.of_nat (length a))%Z)
    flagged_indices ->
  exists annotated,
    annotate_traces data flagged_indices st
    = (Ok (length st), st ++ [annotated])
    /\ length annotated = length a
    /\ forall (t : nat) (trace : list float),
         a !! t = Some trace ->
         annotated !! t
         = Some (if names_trace (length a) flagged_indices t
                 then map (fun _ => PrimFloat.nan) trace else trace).
Proof.
  intros Hdata Hvalid.
  destruct (annotate_loop_run (length st) (length a) flagged_indices
              (st ++ [a]) a) as (b' & Hrun & Hl & Hrows).
  { rewrite lookup_app_r by lia. rewrite Nat.sub_diag. reflexivity. }
  { reflexivity. }
  { exact Hvalid. }
  exists b'. split; [|split; [exact Hl|exact Hrows]].
  unfold annotate_traces. unfold bindM at 1. rewrite (copy_run st data a Hdata).
  unfold bindM at 1. rewrite Hrun. unfold ret.
  rewrite insert_app_r_alt by lia. rewrite Nat.sub_diag. reflexivity.
Qed.

(** X11. Flagging traces. When every flagged index names a trace (from
    [-n] to [n - 1] for [n] traces, a negative index counting from the
    last trace), [annotate_traces] returns a new matrix in which every
    sample of a flagged trace is NaN and every other trace is the input
    trace; flagging a trace twice changes nothing. When an index names no
    trace it raises [IndexError]. *)
Theorem annotate_traces_rows (st : store) (data : ref) (a : ndarray)
  (flagged_indices : list Z) :
  st !! data = Some a ->
  (Forall (fun i => (- Z.of_nat (length a) <= i < Z.of_nat (length a))%Z)
     flagged_indices ->
   exists annotated,
     annotate_traces data flagged_indices st
     = (Ok (length st), st ++ [annotated])
     /\ length annotated = length a
     /\ forall (t : nat) (trace : list float),
          a !! t = Some trace ->
          annotated !! t
          = Some (if names_trace (length a) flagged_indices t
                  then map (fun _ => PrimFloat.nan) trace else trace))
  /\ (Exists (fun i => ~ (- Z.of_nat (length a) <= i
                          < Z.of_nat (length a))%Z) flagged_indices ->
      exists msg st',
        annotate_traces data flagged_indices st
        = (Raise (IndexError msg), st')).
Proof.
  intros Hdata. split.
  - apply annotate_traces_run. exact Hdata.
  - intros Hbad.
    destruct (annotate_loop_raises (length st) (length a) flagged_indices
                (st ++ [a]) a) as (msg & st' & Hrun).
    { rewrite lookup_app_r by lia. rewrite Nat.sub_diag. reflexivity. }
    { reflexivity. }
    { exact Hbad. }
    exists msg, st'.
    unfold annotate_traces. unfold bindM at 1.
    rewrite (copy_run st data a Hdata).
    unfold bindM at 1. rewrite Hrun. reflexivity.
Qed.

(** Two traces of three samples: flagging the last trace as [-1] and as
    [1] overwrites the second trace; the index [2] names no trace. *)
Lemma annotate_traces_rows_witness :
  (exists annotated,
     annotate_traces 0%nat [-1; 1]%Z Mute.two_trace_store
     = (Ok 1%nat, Mute.two_trace_store ++ [annotated])
     /\ length annotated = 2
     /\ forall (t : nat) (trace : list float),
          [ [1; 2; 3]; [4; 5; 6] ]%float !! t = Some trace ->
          annotated !! t
          = Some (if names_trace 2 [-1; 1]%Z t
                  then map (fun _ => PrimFloat.nan) trace else trace))
  /\ exists msg st',
       annotate_traces 0%nat [2]%Z Mute.two_trace_store
       = (Raise (IndexError msg), st').
Proof.
  split.
  - destruct (annotate_traces_rows Mute.two_trace_store 0%nat
                [ [1; 2; 3]; [4; 5; 6] ]%float [-1; 1]%Z eq_refl) as [Hok _].
    apply Hok. repeat constructor; simpl; lia.
  - destruct (annotate_traces_rows Mute.two_trace_store 0%nat
                [ [1; 2; 3]; [4; 5; 6] ]%float [2]%Z eq_refl) as [_ Hraise].
    apply Hraise. constructor. simpl. lia.
Defined.

(** *** Detection, then annotation *)

(** Indices that are trace numbers name the trace they are. *)
Lemma names_trace_elem_of (n : nat) (indices : list Z) (t : nat) :
  Forall (fun i => (0 <= i < Z.of_nat n)%Z) indices ->
  names_trace n indices t = true <-> Z.of_nat t ∈ indices.
Proof.
  induction 1 as [|i indices Hi _ IH]; unfold names_trace; cbn [existsb].
  - split; [discriminate|]. intros H. inversion H.
  - fold (names_trace n indices t).
    rewrite (index_in_range i n Hi), orb_true_iff, IH, elem_of_cons.
    rewrite Nat.eqb_eq. split; (intros [H|H]; [left; lia|right; exact H]).
Qed.

Section Mean.
Variable np_mean : list float -> float.

(** X12. Annotating what the checks found never fails. Each of the three
    lists [run_all_checks] returns holds trace numbers of the matrix
    checked, in increasing order, so [annotate_traces] on the same matrix
    and any of the three lists returns: the traces the list names are
    NaN throughout and the others are the input traces. *)
Theorem checks_then_annotate (self : TraceQC) (st : store) (data : ref)
  (a : ndarray) (checks : Checks) (flagged_indices : list Z) :
  st !! data = Some a ->
  run_all_checks np_mean self a = Ok checks ->
  flagged_indices = dead checks \/ flagged_indices = clipped checks
  \/ flagged_indices = low_energy checks ->
  StronglySorted Z.lt flagged_indices
  /\ exists annotated,
       annotate_traces data flagged_indices st
       = (Ok (length st), st ++ [annotated])
       /\ length annotated = length a
       /\ forall (t : nat) (trace : list float),
            a !! t = Some trace ->
            (Z.of_nat t ∈ flagged_indices ->
             annotated !! t = Some (map (fun _ => PrimFloat.nan) trace))
            /\ (Z.of_nat t ∉ flagged_indices ->
                annotated !! t = Some trace).
Proof.
  intros Hdata Hchecks Hwhich.
  assert (Hlist : StronglySorted Z.lt flagged_indices
                  /\ Forall (fun i => (0 <= i < Z.of_nat (length a))%Z)
                       flagged_indices).
  { unfold run_all_checks in Hchecks.
    destruct (detect_dead_traces self a) as [d|e] eqn:Hd;
      [|discriminate Hchecks].
    destruct (detect_clipped_traces self a) as [c|e] eqn:Hc;
      [|discriminate Hchecks].
    destruct (detect_low_energy_traces np_mean self a) as [l|e] eqn:Hlow;
      [|discriminate Hchecks].
    cbn [bind] in Hchecks. injection Hchecks as <-. simpl in Hwhich.
    rewrite detect_dead_as_flag_loop in Hd.
    rewrite detect_clipped_as_flag_loop in Hc.
    rewrite detect_low_energy_as_flag_loop in Hlow.
    destruct (flag_loop_spec _ a d Hd) as (Hd1 & Hd2 & _).
    destruct (flag_loop_spec _ a c Hc) as (Hc1 & Hc2 & _).
    destruct (flag_loop_spec _ a l Hlow) as (Hl1 & Hl2 & _).
    destruct Hwhich as [->|[->| ->]]; split; assumption. }
  destruct Hlist as [Hsorted Hbounds]. split; [exact Hsorted|].
  destruct (annotate_traces_run st data a flagged_indices Hdata)
    as (annotated & Hrun & Hl & Hrows).
  { eapply Forall_impl; [exact Hbounds|]. simpl. lia. }
  exists annotated. split; [exact Hrun|]. split; [exact Hl|].
  intros t trace Ht. rewrite (Hrows t trace Ht).
  pose proof (names_trace_elem_of (length a) flagged_indices t Hbounds) as Hn.
  split; intros Hin.
  - apply Hn in Hin. rewrite Hin. reflexivity.
  - destruct (names_trace (length a) flagged_indices t); [|reflexivity].
    exfalso. apply Hin, Hn. reflexivity.
Qed.

End Mean.

(** A dead, a live and a dead trace: the dead traces 0 and 2 are found
    and annotated. *)
Lemma checks_then_annotate_witness :
  StronglySorted Z.lt [0; 2]%Z
  /\ exists annotated,
       annotate_traces 0%nat [0; 2]%Z three_trace_store
       = (Ok 1%nat, three_trace_store ++ [annotated])
       /\ length annotated = 3
       /\ forall (t : nat) (trace : list float),
            [ [0; 0]; [1; 2]; [0; 0] ]%float !! t = Some trace ->
            (Z.of_nat t ∈ [0; 2]%Z ->
             annotated !! t = Some (map (fun _ => PrimFloat.nan) trace))
            /\ (Z.of_nat t ∉ [0; 2]%Z ->
                annotated !! t = Some trace).
Proof.
  apply (checks_then_annotate mean_left_to_right default three_trace_store
           0%nat [ [0; 0]; [1; 2]; [0; 0] ]%float
           {| dead := [0; 2]%Z; clipped := [1]%Z; low_energy := [0; 2]%Z |}
           [0; 2]%Z);
    [reflexivity|vm_compute; reflexivity|left; reflexivity].
Defined.

(** *** Traces without samples *)

Lemma detect_clipped_no_samples (self : TraceQC) (data : ndarray) :
  detect_clipped_traces self ([] :: data)
  = Raise (ValueError
             "zero-size array to reduction operation maximum which has no identity").
Proof. reflexivity. Qed.

Section NoSamples.
Variable np_mean : list float -> float.

(** X23. A matrix whose traces have no samples. On a matrix of at least
    one trace and zero samples per trace, [detect_dead_traces] reports
    every trace as dead, [detect_clipped_traces] raises [ValueError] (the
    maximum of an empty trace), and so [run_all_checks] raises it too and
    returns no dictionary. *)
Theorem run_all_checks_no_samples (self : TraceQC) (data : ndarray) :
  data <> [] -> rectangular 0 data ->
  (exists dead_indices,
     detect_dead_traces self data = Ok dead_indices
     /\ forall t : nat, t < length data -> Z.of_nat t ∈ dead_indices)
  /\ detect_clipped_traces self data
     = Raise (ValueError
                "zero-size array to reduction operation maximum which has no identity")
  /\ run_all_checks np_mean self data
     = Raise (ValueError
                "zero-size array to reduction operation maximum which has no identity").
Proof.
  intros Hne Hrect.
  destruct (detect_dead_returns self data) as [d Hd].
  assert (Hclip : detect_clipped_traces self data
                  = Raise (ValueError
                             "zero-size array to reduction operation maximum which has no identity")).
  { destruct data as [|trace data]; [contradiction|].
    apply Forall_cons in Hrect as [Htrace _].
    apply nil_length_inv in Htrace. subst trace.
    apply detect_clipped_no_samples. }
  split; [|split; [exact Hclip|]].
  - exists d. split; [exact Hd|]. intros t Ht.
    rewrite detect_dead_as_flag_loop in Hd.
    apply flag_loop_spec in Hd as (_ & _ & Hmem).
    destruct (lookup_lt_is_Some_2 data t Ht) as [trace Htrace].
    apply (Hmem t trace Htrace).
    unfold rectangular in Hrect. rewrite Forall_forall in Hrect.
    assert (Hlen : length trace = 0)
      by (apply Hrect; eapply list_elem_of_lookup_2; exact Htrace).
    apply nil_length_inv in Hlen. subst trace. reflexivity.
  - unfold run_all_checks. rewrite Hd, Hclip. reflexivity.
Qed.

End NoSamples.

(** Two traces of no samples. *)
Lemma run_all_checks_no_samples_witness :
  (exists dead_indices,
     detect_dead_traces default [ []; [] ] = Ok dead_indices
     /\ forall t : nat, t < 2 -> Z.of_nat t ∈ dead_indices)
  /\ detect_clipped_traces default [ []; [] ]
     = Raise (ValueError
                "zero-size array to reduction operation maximum which has no identity")
  /\ run_all_checks mean_left_to_right default [ []; [] ]
     = Raise (ValueError
                "zero-size array to reduction operation maximum which has no identity").
Proof.
  apply (run_all_checks_no_samples mean_left_to_right default [ []; [] ]).
  - discriminate.
  - repeat constructor.
Defined.

End TraceQCProofs.

(** ** Navigation, beyond the two tracks above *)

Module NavigationMore.
Import NavigationFromTowFish NavigationFromShip MuteBoundaries.

(** *** Towfish coordinates *)

Lemma drop_zeros_nonzero (xs : list Z) :
  Forall (fun x => x <> 0%Z) (drop_zeros xs).
Proof.
  unfold drop_zeros. induction xs as [|x xs IH]; simpl; [constructor|].
  destruct (Z.eqb_spec x 0); simpl; [exact IH|].
  constructor; assumption.
Qed.

Lemma combine_nonzero (xs ys : list Z) :
  Forall (fun x => x <> 0%Z) xs -> Forall (fun y => y <> 0%Z) ys ->
  Forall (fun p => fst p <> 0%Z /\ snd p <> 0%Z) (combine xs ys).
Proof.
  intros Hx. revert ys. induction Hx as [|x xs Hx0 _ IH]; intros ys Hy.
  - constructor.
  - destruct Hy as [|y ys Hy0 Hy]; simpl; constructor;
      [split; assumption|apply IH; exact Hy].
Qed.

Lemma combine_fst_take {A B} (xs : list A) (ys : list B) :
  map fst (combine xs ys) = take (length (combine xs ys)) xs.
Proof.
  revert ys. induction xs as [|x xs IH]; intros [|y ys]; simpl;
    try reflexivity. f_equal. apply IH.
Qed.

Lemma combine_snd_take {A B} (xs : list A) (ys : list B) :
  map snd (combine xs ys) = take (length (combine xs ys)) ys.
Proof.
  revert ys. induction xs as [|x xs IH]; intros [|y ys]; simpl;
    try reflexivity. f_equal. apply IH.
Qed.

(** X13. What the towfish extraction never returns. No pair returned by
    [load_Nav_data_from_segyfile] has a zero component; the x components
    are the first non-zero source x words of the file, in trace order,
    the y components the first non-zero source y words, and there are as
    many pairs as the shorter of the two filtered columns has entries.
    The filter [lat != 0 and lon != 0] the application puts behind the
    extraction therefore removes nothing. *)
Theorem towfish_pairs_nonzero (headers : list TraceHeader) :
  Forall (fun p => fst p <> 0%Z /\ snd p <> 0%Z)
    (load_Nav_data_from_segyfile headers)
  /\ map fst (load_Nav_data_from_segyfile headers)
     = take (length (load_Nav_data_from_segyfile headers))
         (drop_zeros (map SourceX headers))
  /\ map snd (load_Nav_data_from_segyfile headers)
     = take (length (load_Nav_data_from_segyfile headers))
         (drop_zeros (map SourceY headers))
  /\ length (load_Nav_data_from_segyfile headers)
     = Nat.min (length (drop_zeros (map SourceX headers)))
               (length (drop_zeros (map SourceY headers)))
  /\ App.load_towfish_navigation headers
     = load_Nav_data_from_segyfile headers.
Proof.
  assert (Hnz : Forall (fun p => fst p <> 0%Z /\ snd p <> 0%Z)
                  (load_Nav_data_from_segyfile headers))
    by (apply combine_nonzero; apply drop_zeros_nonzero).
  split; [exact Hnz|].
  split; [apply combine_fst_take|].
  split; [apply combine_snd_take|].
  split; [apply length_combine|].
  unfold App.load_towfish_navigation, App.filtered_coords.
  induction Hnz as [|[x y] l [Hx Hy] _ IH]; simpl; [reflexivity|].
  simpl in Hx, Hy.
  destruct (Z.eqb_spec x 0); [contradiction|].
  destruct (Z.eqb_spec y 0); [contradiction|]. simpl. f_equal. exact IH.
Qed.

(** X14. The towfish extraction on a file that records a missing fix as
    zero in both coordinates. When every trace header has both source
    words zero or both non-zero, the pairs returned are exactly the
    source pairs of the headers that have a fix, in trace order: each
    was read from one header. *)
Theorem towfish_pairs_when_aligned (headers : list TraceHeader) :
  Forall (fun h => SourceX h = 0%Z <-> SourceY h = 0%Z) headers ->
  load_Nav_data_from_segyfile headers
  = map header_pair
      (List.filter (fun h => negb (SourceX h =? 0)%Z) headers)
  /\ Forall (fun p => exists h, h ∈ headers /\ p = header_pair h)
       (load_Nav_data_from_segyfile headers).
Proof.
  intros Haligned.
  pose proof (NavigationProofs.load_Nav_aligned headers Haligned) as Heq.
  split; [exact Heq|]. rewrite Heq.
  apply Forall_forall. intros p Hp.
  apply list_elem_of_fmap in Hp as (h & -> & Hh).
  exists h. split; [|reflexivity].
  apply list_elem_of_In, filter_In in Hh as [Hh _].
  apply list_elem_of_In. exact Hh.
Qed.

(** Three traces of which the second has no fix. *)
Lemma towfish_pairs_when_aligned_witness :
  load_Nav_data_from_segyfile headers_fix_missing = [(3, 5); (4, 6)]%Z
  /\ Forall (fun p => exists h, h ∈ headers_fix_missing /\ p = header_pair h)
       (load_Nav_data_from_segyfile headers_fix_missing).
Proof.
  apply (towfish_pairs_when_aligned headers_fix_missing).
  repeat constructor; simpl; intros H; discriminate H.
Defined.


(** *** The layback of a negative depth *)

(** The square root of a negative number is NaN. *)
Lemma sqrt_negative (x : float) :
  (x <? 0)%float = true -> PrimFloat.sqrt x = PrimFloat.nan.
Proof.
  intros H. apply Prim2SF_inj. rewrite sqrt_spec.
  rewrite ltb_spec in H.
  destruct (Prim2SF x) as [s|s| |s m e]; try discriminate H.
  - destruct s; [reflexivity|discriminate H].
  - destruct s; [reflexivity|discriminate H].
Qed.

(** X15. The guard of the layback compares the cable length with the
    depth as signed numbers, the formula squares them: when the guard
    lets the pair through ([cable_length < depth] is false) and
    [cable_length**2 - depth**2] is negative, as for a depth given as a
    negative number larger than the cable length, [calculate_layback]
    does not raise but returns NaN, and so does
    [calculate_total_offset]. *)
Theorem calculate_layback_nan (row : NavRow) :
  (cable_length row <? depth row)%float = false ->
  (cable_length row * cable_length row - depth row * depth row <? 0)%float
  = true ->
  calculate_layback (cable_length row) (depth row) = Ok PrimFloat.nan
  /\ calculate_total_offset row
     = Ok (sheave_offset row + PrimFloat.nan)%float.
Proof.
  intros Hguard Hneg.
  assert (Hlay : calculate_layback (cable_length row) (depth row)
                 = Ok PrimFloat.nan).
  { unfold calculate_layback, pow2. rewrite Hguard.
    rewrite (sqrt_negative _ Hneg). reflexivity. }
  split; [exact Hlay|].
  unfold calculate_total_offset. rewrite Hlay. reflexivity.
Qed.

(** A cable of 3 with a depth of -5. *)
Lemma calculate_layback_nan_witness :
  calculate_layback 3 (-5) = Ok PrimFloat.nan
  /\ calculate_total_offset
       {| X_ship := 0; Y_ship := 0; Heading := 0;
          cable_length := 3; depth := -5; sheave_offset := 1 |}
     = Ok (1 + PrimFloat.nan)%float.
Proof.
  apply (calculate_layback_nan
           {| X_ship := 0; Y_ship := 0; Heading := 0;
              cable_length := 3; depth := -5; sheave_offset := 1 |});
    vm_compute; reflexivity.
Defined.

(** *** Ship navigation to SBP navigation, for every table *)

Lemma range_lookup (lo hi : Z) (t : nat) :
  t < Z.to_nat (hi - lo) -> range lo hi !! t = Some (lo + Z.of_nat t)%Z.
Proof.
  intros H. unfold range.
  change (map ?g ?l !! t) with ((g <$> l) !! t).
  rewrite list_lookup_fmap, lookup_seq_lt by exact H. reflexivity.
Qed.

(** A loop whose passes return or raise [ValueError] raises
    [ValueError] when one of them does. *)
Lemma mapM_raises_ValueError {A B} (f : A -> Result B) (xs : list A) :
  Forall (fun x => (exists y, f x = Ok y)
                   \/ exists msg, f x = Raise (ValueError msg)) xs ->
  Exists (fun x => exists msg, f x = Raise (ValueError msg)) xs ->
  exists msg, mapM f xs = Raise (ValueError msg).
Proof.
  induction 1 as [|x xs Hx _ IH]; intros Hex.
  - apply Exists_nil in Hex. destruct Hex.
  - simpl. destruct Hx as [[y Hy]|[msg Hmsg]].
    + rewrite Hy. simpl. apply Exists_cons in Hex as [[msg Hmsg]|Hex].
      * congruence.
      * destruct (IH Hex) as [msg ->]. eauto.
    + rewrite Hmsg. eauto.
Qed.

Section ShipToSbp.
Variables (np_cos np_sin : float -> float).
Variable np_arctan2 : float -> float -> float.
Variable assign_sbp_coords_to_segy : list (float * float) -> Result unit.

(** One pass of the loop on two records that exist. *)
Lemma sbp_coord_at_rows (df : DataFrame) (t : nat) (r1 r2 : NavRow) :
  rows df !! t = Some r1 -> rows df !! S t = Some r2 ->
  sbp_coord_at np_cos np_sin np_arctan2 df (Z.of_nat t)
  = if (cable_length r1 <? depth r1)%float
    then Raise (ValueError
      "Cable length must be greater than depth to apply the Pythagorean theorem.")
    else Ok (calculate_sbp_coords np_cos np_sin (X_ship r1, Y_ship r1)
               (sheave_offset r1
                + PrimFloat.sqrt (pow2 (cable_length r1) - pow2 (depth r1)))
               (if has_Heading df then Heading r1
                else calculate_heading np_arctan2
                       (X_ship r1, Y_ship r1) (X_ship r2, Y_ship r2)))%float.
Proof.
  intros H1 H2. unfold sbp_coord_at.
  rewrite Nat2Z.id. replace (Z.to_nat (Z.of_nat t + 1)) with (S t) by lia.
  rewrite H1, H2. unfold calculate_total_offset, calculate_layback.
  destruct (cable_length r1 <? depth r1)%float; reflexivity.
Qed.

(** X16. The loop of the ship-to-SBP conversion. When it returns, it
    returns one pair for every record but the last: the pair of record
    [i] is the ship position of that record moved by its total offset
    (sheave offset plus layback) along the heading, which is the
    [Heading] of the record when the table has that column and the
    direction to the next record otherwise; the cable length and depth
    of the last record are never read. A record before the last whose
    cable is shorter than its depth makes the whole loop raise
    [ValueError], and the loop returns when there is none. *)
Theorem sbp_coords_loop_pairs (df : DataFrame) :
  (forall cs : list (float * float),
     sbp_coords_loop np_cos np_sin np_arctan2 df = Ok cs ->
     length cs = (length (rows df) - 1)%nat
     /\ forall (t : nat) (r1 r2 : NavRow),
          rows df !! t = Some r1 -> rows df !! S t = Some r2 ->
          (cable_length r1 <? depth r1)%float = false
          /\ cs !! t
             = Some (calculate_sbp_coords np_cos np_sin
                       (X_ship r1, Y_ship r1)
                       (sheave_offset r1
                        + PrimFloat.sqrt
                            (pow2 (cable_length r1) - pow2 (depth r1)))
                       (if has_Heading df then Heading r1
                        else calculate_heading np_arctan2
                               (X_ship r1, Y_ship r1)
                               (X_ship r2, Y_ship r2)))%float)
  /\ (forall (t : nat) (r1 r2 : NavRow),
        rows df !! t = Some r1 -> rows df !! S t = Some r2 ->
        (cable_length r1 <? depth r1)%float = true ->
        exists msg,
          sbp_coords_loop np_cos np_sin np_arctan2 df
          = Raise (ValueError msg))
  /\ ((forall (t : nat) (r1 r2 : NavRow),
         rows df !! t = Some r1 -> rows df !! S t = Some r2 ->
         (cable_length r1 <? depth r1)%float = false) ->
      exists cs, sbp_coords_loop np_cos np_sin np_arctan2 df = Ok cs).
Proof.
  assert (Hrange : forall t r2, rows df !! S t = Some r2 ->
            range 0 (Z.of_nat (length (rows df)) - 1) !! t
            = Some (Z.of_nat t)).
  { intros t r2 H2. apply lookup_lt_Some in H2.
    rewrite range_lookup by lia. f_equal. }
  split; [|split].
  - intros cs Hcs. split.
    + apply (NavigationProofs.sbp_coords_loop_length _ _ _ _ _ Hcs).
    + intros t r1 r2 H1 H2. unfold sbp_coords_loop in Hcs.
      destruct (mapM_lookup _ _ _ Hcs t (Z.of_nat t) (Hrange t r2 H2))
        as (c & Hc & Hat).
      rewrite (sbp_coord_at_rows df t r1 r2 H1 H2) in Hat.
      destruct (cable_length r1 <? depth r1)%float; [discriminate Hat|].
      injection Hat as <-. split; [reflexivity|exact Hc].
  - intros t r1 r2 H1 H2 Hshort. unfold sbp_coords_loop.
    apply mapM_raises_ValueError.
    + apply Forall_forall. intros i Hi.
      pose proof (range_bounds 0 (Z.of_nat (length (rows df)) - 1)) as Hb.
      rewrite Forall_forall in Hb. specialize (Hb i Hi).
      destruct (lookup_lt_is_Some_2 (rows df) (Z.to_nat i) ltac:(lia))
        as [q1 Hq1].
      destruct (lookup_lt_is_Some_2 (rows df) (S (Z.to_nat i)) ltac:(lia))
        as [q2 Hq2].
      replace i with (Z.of_nat (Z.to_nat i)) by lia.
      rewrite (sbp_coord_at_rows df _ q1 q2 Hq1 Hq2).
      destruct (cable_length q1 <? depth q1)%float; [right|left]; eauto.
    + apply Exists_exists. exists (Z.of_nat t). split.
      * eapply list_elem_of_lookup_2. apply (Hrange t r2 H2).
      * rewrite (sbp_coord_at_rows df t r1 r2 H1 H2), Hshort. eauto.
  - intros Hlong. unfold sbp_coords_loop. apply mapM_returns.
    apply Forall_forall. intros i Hi.
    pose proof (range_bounds 0 (Z.of_nat (length (rows df)) - 1)) as Hb.
    rewrite Forall_forall in Hb. specialize (Hb i Hi).
    destruct (lookup_lt_is_Some_2 (rows df) (Z.to_nat i) ltac:(lia))
      as [q1 Hq1].
    destruct (lookup_lt_is_Some_2 (rows df) (S (Z.to_nat i)) ltac:(lia))
      as [q2 Hq2].
    replace i with (Z.of_nat (Z.to_nat i)) by lia.
    rewrite (sbp_coord_at_rows df _ q1 q2 Hq1 Hq2).
    rewrite (Hlong _ q1 q2 Hq1 Hq2). eauto.
Qed.

(** X17. The ship-to-SBP conversion returns for no navigation table.
    Whatever the records, the trigonometric routines and the routine that
    writes the SEG-Y headers, [ship_to_sbp_nav] raises: when its loop
    returns, the list it built is one pair short of the table (or empty),
    the unpacking or the column assignment raises [ValueError], and the
    SEG-Y headers are never written. *)
Theorem ship_to_sbp_nav_never_returns (df : DataFrame) :
  (exists e,
     ship_to_sbp_nav np_cos np_sin np_arctan2 assign_sbp_coords_to_segy df
     = Raise e)
  /\ forall cs : list (float * float),
       sbp_coords_loop np_cos np_sin np_arctan2 df = Ok cs ->
       exists msg,
         ship_to_sbp_nav np_cos np_sin np_arctan2 assign_sbp_coords_to_segy
           df
         = Raise (ValueError msg).
Proof.
  split; [apply NavigationProofs.ship_to_sbp_nav_raises|].
  intros cs Hcs. unfold ship_to_sbp_nav. rewrite Hcs. cbn [bind].
  apply NavigationProofs.sbp_coords_loop_length in Hcs.
  destruct cs as [|c cs]; [eauto|].
  rewrite length_map.
  destruct (Nat.eqb_spec (length (c :: cs)) (length (rows df))) as [Hn|Hn];
    simpl; [|eauto].
  simpl in Hcs, Hn. lia.
Qed.

End ShipToSbp.

(** The loop on the track of two records, with a cosine of 1 and a sine
    of 0 for every heading: one pair, 85 m ahead of the first record. *)
Lemma sbp_coords_loop_pairs_witness :
  sbp_coords_loop (fun _ => 1%float) (fun _ => 0%float)
    (fun _ _ => 0%float) track2
  = Ok [ (85, 0)%float ].
Proof.
  destruct (sbp_coords_loop_pairs (fun _ => 1%float) (fun _ => 0%float)
              (fun _ _ => 0%float) track2) as [Hok _].
  destruct (sbp_coords_loop (fun _ => 1%float) (fun _ => 0%float)
              (fun _ _ => 0%float) track2) as [cs|e] eqn:Hcs;
    [|vm_compute in Hcs; discriminate Hcs].
  destruct (Hok cs eq_refl) as [Hlen Hpairs].
  destruct (Hpairs 0%nat _ _ eq_refl eq_refl) as [_ Hc].
  destruct cs as [|c [|c' cs]]; try discriminate Hlen.
  simpl in Hc. injection Hc as ->. vm_compute. reflexivity.
Defined.

End NavigationMore.

(** ** Filters, beyond the Butterworth guards *)

Module FilterMore.
Import IIR_Filters FIR_Filters.

(** X18. The length of a wavelet-denoised trace. For a wavelet with an
    even filter length (2 for 'haar', 8 for 'db4'), a decomposition
    level of at least 1 and a trace of at least one sample,
    [wavelet_filter] returns a trace of the input length when that is
    even, and of one sample more when it is odd. A trace without samples
    is refused with [ValueError]. *)
Theorem wavelet_filter_length (data_len dec_len level : nat) :
  dec_len mod 2 = 0 -> 2 <= dec_len -> 1 <= level ->
  (1 <= data_len ->
   wavelet_filter_shape data_len dec_len level
   = Ok (if Nat.even data_len then data_len else S data_len))
  /\ (data_len = 0 ->
      exists msg,
        wavelet_filter_shape data_len dec_len level
        = Raise (ValueError msg)).
Proof.
  intros Heven Hlen Hlevel. split.
  - intros Hdata.
    rewrite (FilterProofs.wavelet_filter_shape_up_even _ _ _
               Heven Hlen Hlevel Hdata).
    f_equal. unfold up_even.
    rewrite <- Nat.bit0_mod, Nat.bit0_odd, <- Nat.negb_even.
    destruct (Nat.even data_len); simpl; lia.
  - intros ->. unfold wavelet_filter_shape.
    destruct level as [|level]; [lia|]. eexists. reflexivity.
Qed.

(** A trace of 1000 samples filtered with 'db4' at level 5 keeps its
    length. *)
Lemma wavelet_filter_length_witness :
  wavelet_filter_shape 1000 8 5 = Ok 1000.
Proof.
  destruct (wavelet_filter_length 1000 8 5) as [Hlen _];
    [reflexivity|lia|lia|].
  apply Hlen. lia.
Defined.

Section Chebyshev.
Variable ba : Type.
Variable signal_cheby2_ba :
  Z -> float -> list float -> btype -> float -> Result ba.

(** X19. The Chebyshev lowpass filter returns for no input: whatever the
    trace and the parameters, [cheby2_lowpass_filter] raises. When the
    design routine returns, the call of [lfilter] with two arguments
    raises [TypeError], which the handler for [ValueError] lets
    through. *)
Theorem cheby2_lowpass_never_returns (signal_data : list float)
  (sample_rate : float) (filter_order : Z) (freq ripple : float) :
  (exists e,
     cheby2_lowpass_filter ba signal_cheby2_ba signal_data sample_rate
       filter_order freq ripple = Raise e)
  /\ forall design,
       signal_cheby2_ba filter_order ripple [freq] Lowpass sample_rate
       = Ok design ->
       exists msg,
         cheby2_lowpass_filter ba signal_cheby2_ba signal_data
           sample_rate filter_order freq ripple
         = Raise (TypeError msg).
Proof.
  unfold cheby2_lowpass_filter. split.
  - destruct (signal_cheby2_ba _ _ _ _ _) as [design|[]]; simpl; eauto.
  - intros design ->. simpl. eauto.
Qed.

End Chebyshev.

End FilterMore.
